(** * The order service of the e-commerce backend

    A shallow embedding of [OrderService] (services/order.service.ts) and of
    the entities it reads and writes (entities/order.entity.ts,
    entities/order-item.entity.ts, entities/product.entity.ts), followed by
    the properties of order creation, cancellation, status updates and paged
    listing.

    Conventions of the model.
    - Identifiers are UUIDs generated by the database; only their equality is
      ever used, so they are natural numbers here and the generator is a
      counter kept in the database state.
    - Money columns are [decimal(10,2)]; a value is the integer number of
      hundredths it denotes, and the arithmetic of the service ([*], [+=]) is
      exact on them.  Quantities are integers; the service does not restrict
      their sign.
    - A repository call is one atomic step on the database state.  The
      service opens no transaction, so a thrown error leaves the database as
      it was at the throw. *)

From stdpp Require Import base gmap list strings sorting pretty.

Open Scope Z_scope.

(** ** Entities *)

(** [enum OrderStatus] of order.entity.ts. *)
Inductive OrderStatus := PENDING | CONFIRMED | SHIPPED | DELIVERED | CANCELLED.

#[global] Instance OrderStatus_eq_dec : EqDecision OrderStatus.
Proof. solve_decision. Defined.

(** The columns of [Product] the order service reads or writes.  The primary
    key [id] is the key of the table. *)
Module Product.
Record t := mk {
  name : string;
  price : Z;
  isAvailable : bool;
  stockQuantity : Z
}.

(** [SET stockQuantity = stockQuantity + d] on one row. *)
Definition addStock (d : Z) (p : t) : t :=
  mk (name p) (price p) (isAvailable p) (stockQuantity p + d).
End Product.

(** [OrderItem] rows. *)
Module OrderItem.
Record t := mk {
  id : nat;
  orderId : nat;
  productId : nat;
  quantity : Z;
  unitPrice : Z;
  totalPrice : Z
}.

(** The [Partial<OrderItem>] objects pushed by the validation loop of
    [createOrder], before the order id is known. *)
Record draft := mkDraft {
  d_productId : nat;
  d_quantity : Z;
  d_unitPrice : Z;
  d_totalPrice : Z
}.

(** [{ ...item, orderId }] saved under a generated [id]. *)
Definition ofDraft (oid : nat) (iid : nat) (d : draft) : t :=
  mk iid oid (d_productId d) (d_quantity d) (d_unitPrice d) (d_totalPrice d).
End OrderItem.

(** [Order] rows; the primary key [id] is the key of the table, and the
    [items] relation is the set of order items whose [orderId] is that key. *)
Module Order.
Record t := mk {
  orderNumber : string;
  userId : nat;
  status : OrderStatus;
  totalAmount : Z;
  shippingCost : Z;
  taxAmount : Z;
  shippingAddress : option string;
  shippingCity : option string;
  shippingPostalCode : option string;
  shippingCountry : option string;
  notes : option string;
  createdAt : Z;
  updatedAt : Z
}.

(** [UPDATE order SET status = s, updatedAt = now] on one row: what
    [orderRepo.update({ id }, { status })] does to the row it matches (the
    [@UpdateDateColumn] is refreshed by every update). *)
Definition setStatus (s : OrderStatus) (now : Z) (o : t) : t :=
  mk (orderNumber o) (userId o) s (totalAmount o) (shippingCost o)
     (taxAmount o) (shippingAddress o) (shippingCity o)
     (shippingPostalCode o) (shippingCountry o) (notes o) (createdAt o) now.
End Order.

(** An order as [getOrderById] and the listing queries return it: the row,
    its key, and its [items] relation loaded. *)
Record OrderView := mkView {
  v_id : nat;
  v_order : Order.t;
  v_items : list OrderItem.t
}.

(** ** Requests *)

(** One element of [CreateOrderRequest.items]. *)
Record ItemRequest := mkItem {
  productId : nat;
  quantity : Z
}.

(** [interface CreateOrderRequest]. *)
Record CreateOrderRequest := mkRequest {
  items : list ItemRequest;
  r_shippingAddress : option string;
  r_shippingCity : option string;
  r_shippingPostalCode : option string;
  r_shippingCountry : option string;
  r_notes : option string
}.

(** What a call reads from its environment: [Date.now()], the base-36 suffix
    cut from [Math.random()], and the database clock that stamps rows. *)
Record Env := mkEnv {
  dateNow : Z;
  randomSuffix : string;
  dbNow : Z
}.

(** ** Database state *)

Record DB := mkDB {
  products : gmap nat Product.t;
  orders : gmap nat Order.t;
  orderItems : list OrderItem.t;
  nextId : nat
}.

(** ** Errors *)

(** The errors the service throws, one constructor per [throw new Error]
    template, carrying the values interpolated into the message; and the
    unique-constraint violation of [orderNumber] raised by [orderRepo.save]. *)
Inductive ServiceError :=
| ProductNotFound (pid : nat)
| ProductUnavailable (pname : string)
| InsufficientStock (pname : string) (available : Z)
| DuplicateOrderNumber (number : string)
| FailedToRetrieve
| OrderNotFound
| AlreadyCancelled
| CannotCancelDelivered.

#[global] Instance ServiceError_eq_dec : EqDecision ServiceError.
Proof. solve_decision. Defined.

(** The text of the thrown [Error]. *)
Definition message (e : ServiceError) : string :=
  match e with
  | ProductNotFound pid =>
      "Product with ID " +:+ pretty pid +:+ " not found"
  | ProductUnavailable pname =>
      "Product " +:+ pname +:+ " is not available"
  | InsufficientStock pname available =>
      "Insufficient stock for product " +:+ pname +:+ ". Available: "
        +:+ pretty available
  | DuplicateOrderNumber number =>
      "duplicate key value violates unique constraint: " +:+ number
  | FailedToRetrieve => "Failed to retrieve created order"
  | OrderNotFound => "Order not found"
  | AlreadyCancelled => "Order is already cancelled"
  | CannotCancelDelivered => "Cannot cancel delivered order"
  end.

(** The three rejections of the validation loop of [createOrder]. *)
Definition isValidationError (e : ServiceError) : bool :=
  match e with
  | ProductNotFound _ | ProductUnavailable _ | InsufficientStock _ _ => true
  | _ => false
  end.

(** The two rejections of [cancelOrder] on a terminal status (the spec's
    [InvalidTransition]). *)
Definition isInvalidTransition (e : ServiceError) : bool :=
  match e with
  | AlreadyCancelled | CannotCancelDelivered => true
  | _ => false
  end.

(** ** The service monad: database state and thrown errors *)

Definition M (A : Type) : Type := DB → DB * (ServiceError + A).

Definition ret {A} (a : A) : M A := λ db, (db, inr a).

Definition throw {A} (e : ServiceError) : M A := λ db, (db, inl e).

Definition bind {A B} (m : M A) (k : A → M B) : M B :=
  λ db, match m db with
        | (db', inl e) => (db', inl e)
        | (db', inr a) => k a db'
        end.

Notation "'do' x <- m ; k" := (bind m (λ x, k))
  (at level 10, x name, m at level 100, k at level 200).
Notation "m ;; k" := (bind m (λ _, k))
  (at level 100, k at level 200, right associativity).

(** [for (const x of l) { await f(x) }]. *)
Fixpoint forEach {A} (f : A → M unit) (l : list A) : M unit :=
  match l with
  | [] => ret tt
  | x :: rest => f x ;; forEach f rest
  end.

(** ** Repository operations *)

(** [productRepo.findOne({ where: { id } })]. *)
Definition findProduct (pid : nat) : M (option Product.t) :=
  λ db, (db, inr (products db !! pid)).

(** [productRepo.decrement({ id }, 'stockQuantity', q)]: no row matched, no
    row changed. *)
Definition decrementStock (pid : nat) (q : Z) : M unit :=
  λ db, (mkDB (alter (Product.addStock (- q)) pid (products db))
              (orders db) (orderItems db) (nextId db), inr tt).

(** [productRepo.increment({ id }, 'stockQuantity', q)]. *)
Definition incrementStock (pid : nat) (q : Z) : M unit :=
  λ db, (mkDB (alter (Product.addStock q) pid (products db))
              (orders db) (orderItems db) (nextId db), inr tt).

(** Whether some order row already carries this [orderNumber]
    ([@Column({ unique: true })]). *)
Definition orderNumberTaken (number : string) (db : DB) : bool :=
  bool_decide (Exists (λ kv, Order.orderNumber kv.2 = number)
                      (map_to_list (orders db))).

(** [orderRepo.save(order)] of a new entity: the row is inserted under a
    generated id and returned with it. *)
Definition saveOrder (o : Order.t) : M nat :=
  λ db, if orderNumberTaken (Order.orderNumber o) db
        then (db, inl (DuplicateOrderNumber (Order.orderNumber o)))
        else (mkDB (products db) (<[nextId db := o]> (orders db))
                   (orderItems db) (S (nextId db)), inr (nextId db)).

(** Ids given to the rows of one [orderItemRepo.save(array)]. *)
Fixpoint insertItems (oid first : nat) (ds : list OrderItem.draft)
  : list OrderItem.t :=
  match ds with
  | [] => []
  | d :: rest => OrderItem.ofDraft oid first d :: insertItems oid (S first) rest
  end.

(** [orderItemRepo.save(orderItemsWithOrderId)]. *)
Definition saveOrderItems (oid : nat) (ds : list OrderItem.draft) : M unit :=
  λ db, (mkDB (products db) (orders db)
              (orderItems db ++ insertItems oid (nextId db) ds)
              (nextId db + length ds)%nat, inr tt).

(** The [items] relation of an order. *)
Definition itemsOf (oid : nat) (db : DB) : list OrderItem.t :=
  filter (λ it, OrderItem.orderId it = oid) (orderItems db).

Definition viewOf (db : DB) (oid : nat) (o : Order.t) : OrderView :=
  mkView oid o (itemsOf oid db).

(** [orderRepo.update({ id }, { status })]. *)
Definition updateStatusRow (oid : nat) (s : OrderStatus) (now : Z) : M unit :=
  λ db, (mkDB (products db) (alter (Order.setStatus s now) oid (orders db))
              (orderItems db) (nextId db), inr tt).

(** ** The service *)

(** [getOrderById]. *)
Definition getOrderById (oid : nat) : M (option OrderView) :=
  λ db, (db, inr (viewOf db oid <$> orders db !! oid)).

(** The template literal building the order number. *)
Definition makeOrderNumber (env : Env) : string :=
  "ORD-" +:+ pretty (dateNow env) +:+ "-" +:+ randomSuffix env.

(** The validation loop of [createOrder] (first [for] loop), threading
    [totalAmount] and [orderItems].  The product is found by its id, so
    [product.id] is [item.productId]. *)
Fixpoint validateItems (its : list ItemRequest) (totalAmount : Z)
    (orderItems : list OrderItem.draft) : M (Z * list OrderItem.draft) :=
  match its with
  | [] => ret (totalAmount, orderItems)
  | item :: rest =>
      do product <- findProduct (productId item);
      match product with
      | None => throw (ProductNotFound (productId item))
      | Some p =>
          if negb (Product.isAvailable p)
          then throw (ProductUnavailable (Product.name p))
          else if Product.stockQuantity p <? quantity item
          then throw (InsufficientStock (Product.name p)
                                        (Product.stockQuantity p))
          else
            let itemTotal := Product.price p * quantity item in
            validateItems rest (totalAmount + itemTotal)
              (orderItems ++ [OrderItem.mkDraft (productId item)
                                (quantity item) (Product.price p) itemTotal])
      end
  end.

(** The row built by [orderRepo.create({...})]; [shippingCost] and
    [taxAmount] take their column default. *)
Definition newOrder (env : Env) (userId : nat) (data : CreateOrderRequest)
    (totalAmount : Z) : Order.t :=
  Order.mk (makeOrderNumber env) userId PENDING totalAmount 0 0
    (r_shippingAddress data) (r_shippingCity data)
    (r_shippingPostalCode data) (r_shippingCountry data) (r_notes data)
    (dbNow env) (dbNow env).

(** The stock update loop of [createOrder] (second [for] loop). *)
Definition decrementAll (its : list ItemRequest) : M unit :=
  forEach (λ item, decrementStock (productId item) (quantity item)) its.

(** [createOrder]. *)
Definition createOrder (env : Env) (userId : nat) (data : CreateOrderRequest)
  : M OrderView :=
  do validated <- validateItems (items data) 0 [];
  do savedId <- saveOrder (newOrder env userId data validated.1);
  saveOrderItems savedId validated.2 ;;
  decrementAll (items data) ;;
  do createdOrder <- getOrderById savedId;
  match createdOrder with
  | None => throw FailedToRetrieve
  | Some o => ret o
  end.

(** The query both listings build: the rows kept by the [where] clause,
    ordered by [createdAt DESC]. *)
Definition newestFirst (a b : nat * Order.t) : Prop :=
  Order.createdAt b.2 ≤ Order.createdAt a.2.

#[global] Instance newestFirst_dec a b : Decision (newestFirst a b).
Proof. unfold newestFirst. apply _. Defined.

Definition queryRows (P : Order.t → Prop) `{!∀ o, Decision (P o)} (db : DB)
  : list (nat * Order.t) :=
  merge_sort newestFirst (filter (λ kv, P kv.2) (map_to_list (orders db))).

(** [Math.ceil(a / b)] on integers (for [b] other than zero). *)
Definition ceilDiv (a b : Z) : Z := - ((- a) / b).

(** The object both listings return. *)
Record Page := mkPage {
  pg_orders : list OrderView;
  pg_total : Z;
  pg_page : Z;
  pg_limit : Z;
  pg_totalPages : Z
}.

(** [getCount()], then [skip(offset).take(limit).getMany()] on the same
    query, then [totalPages]; [skip] and [take] count orders, not joined
    rows. *)
Definition runPagedQuery (P : Order.t → Prop) `{!∀ o, Decision (P o)}
    (page limit : Z) : M Page :=
  λ db,
    let rows := queryRows P db in
    let total := Z.of_nat (length rows) in
    let offset := (page - 1) * limit in
    let selected := take (Z.to_nat limit) (drop (Z.to_nat offset) rows) in
    let totalPages := ceilDiv total limit in
    (db, inr (mkPage (map (λ kv, viewOf db kv.1 kv.2) selected)
                     total page limit totalPages)).

(** [getUserOrders]; the caller passes [page] and [limit] (the controller
    fills in 1 and 10 when the query string has none). *)
Definition getUserOrders (userId : nat) (page limit : Z) : M Page :=
  runPagedQuery (λ o, Order.userId o = userId) page limit.

(** [getAllOrders]. *)
Definition getAllOrders (page limit : Z) : M Page :=
  runPagedQuery (λ _, True) page limit.

(** [updateOrderStatus]. *)
Definition updateOrderStatus (now : Z) (orderId : nat) (status : OrderStatus)
  : M (option OrderView) :=
  updateStatusRow orderId status now ;;
  getOrderById orderId.

(** The stock restoring loop of [cancelOrder]. *)
Definition restoreAll (its : list OrderItem.t) : M unit :=
  forEach (λ it, incrementStock (OrderItem.productId it) (OrderItem.quantity it))
          its.

(** [cancelOrder]. *)
Definition cancelOrder (now : Z) (orderId : nat) : M (option OrderView) :=
  do order <- getOrderById orderId;
  match order with
  | None => throw OrderNotFound
  | Some o =>
      if decide (Order.status (v_order o) = CANCELLED)
      then throw AlreadyCancelled
      else if decide (Order.status (v_order o) = DELIVERED)
      then throw CannotCancelDelivered
      else restoreAll (v_items o) ;;
           updateOrderStatus now orderId CANCELLED
  end.

(** ** [createOrder] one [await] at a time

    Between two [await]s a call runs alone; at an [await] another request may
    run.  A call in progress is the point it has reached together with its
    local variables, and one step runs it up to its next repository call. *)
Inductive CreatePoint :=
| AtValidate (rest : list ItemRequest) (totalAmount : Z)
             (orderItems : list OrderItem.draft)
| AtSaveOrder (totalAmount : Z) (orderItems : list OrderItem.draft)
| AtSaveItems (savedId : nat) (orderItems : list OrderItem.draft)
| AtDecrement (savedId : nat) (rest : list ItemRequest)
| AtReload (savedId : nat)
| Finished (result : ServiceError + OrderView).

(** The arguments of one call. *)
Record Call := mkCall {
  c_env : Env;
  c_userId : nat;
  c_data : CreateOrderRequest
}.

Definition startCreate (c : Call) : CreatePoint :=
  AtValidate (items (c_data c)) 0 [].

Definition stepCreate (c : Call) (pt : CreatePoint) (db : DB)
  : DB * CreatePoint :=
  match pt with
  | AtValidate [] totalAmount ds => (db, AtSaveOrder totalAmount ds)
  | AtValidate (item :: rest) totalAmount ds =>
      match validateItems [item] totalAmount ds db with
      | (db', inl e) => (db', Finished (inl e))
      | (db', inr (totalAmount', ds')) => (db', AtValidate rest totalAmount' ds')
      end
  | AtSaveOrder totalAmount ds =>
      match saveOrder (newOrder (c_env c) (c_userId c) (c_data c) totalAmount)
                      db with
      | (db', inl e) => (db', Finished (inl e))
      | (db', inr savedId) => (db', AtSaveItems savedId ds)
      end
  | AtSaveItems savedId ds =>
      match saveOrderItems savedId ds db with
      | (db', inl e) => (db', Finished (inl e))
      | (db', inr _) => (db', AtDecrement savedId (items (c_data c)))
      end
  | AtDecrement savedId [] => (db, AtReload savedId)
  | AtDecrement savedId (item :: rest) =>
      match decrementStock (productId item) (quantity item) db with
      | (db', inl e) => (db', Finished (inl e))
      | (db', inr _) => (db', AtDecrement savedId rest)
      end
  | AtReload savedId =>
      match getOrderById savedId db with
      | (db', inl e) => (db', Finished (inl e))
      | (db', inr None) => (db', Finished (inl FailedToRetrieve))
      | (db', inr (Some o)) => (db', Finished (inr o))
      end
  | Finished r => (db, Finished r)
  end.

(** A call run alone for [n] steps. *)
Fixpoint runCreate (c : Call) (n : nat) (pt : CreatePoint) (db : DB)
  : DB * CreatePoint :=
  match n with
  | O => (db, pt)
  | S n' => let '(db', pt') := stepCreate c pt db in runCreate c n' pt' db'
  end.

(** Two calls in flight; the schedule says which one takes each step
    ([true]: the first). *)
Fixpoint runConcurrently (c1 c2 : Call) (schedule : list bool)
    (p1 p2 : CreatePoint) (db : DB) : DB * CreatePoint * CreatePoint :=
  match schedule with
  | [] => (db, p1, p2)
  | true :: rest =>
      let '(db', p1') := stepCreate c1 p1 db in runConcurrently c1 c2 rest p1' p2 db'
  | false :: rest =>
      let '(db', p2') := stepCreate c2 p2 db in runConcurrently c1 c2 rest p1 p2' db'
  end.

Definition succeeded (pt : CreatePoint) : bool :=
  match pt with
  | Finished (inr _) => true
  | _ => false
  end.

(** ** Sequences of service calls *)

(** The public methods of [OrderService]. *)
Inductive Op :=
| OpCreateOrder (env : Env) (userId : nat) (data : CreateOrderRequest)
| OpGetOrderById (orderId : nat)
| OpGetUserOrders (userId : nat) (page limit : Z)
| OpGetAllOrders (page limit : Z)
| OpUpdateOrderStatus (now : Z) (orderId : nat) (status : OrderStatus)
| OpCancelOrder (now : Z) (orderId : nat).

(** The database after one call, whatever it returned or threw. *)
Definition exec (op : Op) (db : DB) : DB :=
  match op with
  | OpCreateOrder env userId data => (createOrder env userId data db).1
  | OpGetOrderById orderId => (getOrderById orderId db).1
  | OpGetUserOrders userId page limit => (getUserOrders userId page limit db).1
  | OpGetAllOrders page limit => (getAllOrders page limit db).1
  | OpUpdateOrderStatus now orderId status =>
      (updateOrderStatus now orderId status db).1
  | OpCancelOrder now orderId => (cancelOrder now orderId db).1
  end.

Definition execAll (ops : list Op) (db : DB) : DB :=
  foldl (λ d op, exec op d) db ops.

(** ** Derived quantities *)

(** Sum of a list of amounts or quantities. *)
Definition sumZ (l : list Z) : Z := foldr Z.add 0 l.

(** Stock of a product, when the product exists. *)
Definition stockOf (pid : nat) (db : DB) : option Z :=
  Product.stockQuantity <$> products db !! pid.

(** Total quantity a request orders of one product. *)
Definition requestedOf (pid : nat) (its : list ItemRequest) : Z :=
  sumZ (map quantity (filter (λ it, productId it = pid) its)).

(** Total quantity recorded for one product on a list of order items. *)
Definition recordedOf (pid : nat) (its : list OrderItem.t) : Z :=
  sumZ (map OrderItem.quantity
            (filter (λ it, OrderItem.productId it = pid) its)).

(** The products table after the stock update loop. *)
Definition decremented (its : list ItemRequest) (m : gmap nat Product.t)
  : gmap nat Product.t :=
  foldl (λ acc item, alter (Product.addStock (- quantity item))
                           (productId item) acc) m its.

(** The products table after the stock restoring loop. *)
Definition restored (its : list OrderItem.t) (m : gmap nat Product.t)
  : gmap nat Product.t :=
  foldl (λ acc it, alter (Product.addStock (OrderItem.quantity it))
                         (OrderItem.productId it) acc) m its.

(** The database a [createOrder] that returns leaves behind: the order row,
    its item rows and the decremented stock. *)
Definition afterCreate (env : Env) (userId : nat) (data : CreateOrderRequest)
    (totalAmount : Z) (ds : list OrderItem.draft) (db : DB) : DB :=
  mkDB (decremented (items data) (products db))
       (<[nextId db := newOrder env userId data totalAmount]> (orders db))
       (orderItems db ++ insertItems (nextId db) (S (nextId db)) ds)
       (S (nextId db) + length ds)%nat.

(** The database after [updateOrderStatus]. *)
Definition afterStatus (now : Z) (orderId : nat) (status : OrderStatus)
    (db : DB) : DB :=
  mkDB (products db) (alter (Order.setStatus status now) orderId (orders db))
       (orderItems db) (nextId db).

(** The database after a [cancelOrder] that returns: stock restored from the
    order's items, then the status written. *)
Definition afterCancel (now : Z) (orderId : nat) (db : DB) : DB :=
  afterStatus now orderId CANCELLED
    (mkDB (restored (itemsOf orderId db) (products db)) (orders db)
          (orderItems db) (nextId db)).

(** ** Predicates used in the statements *)

(** Referential integrity of the order tables: every id in use was issued by
    the generator. *)
Definition wellFormed (db : DB) : Prop :=
  (∀ k o, orders db !! k = Some o → (k < nextId db)%nat) ∧
  (∀ it, it ∈ orderItems db → (OrderItem.orderId it < nextId db)%nat).

(** An item the validation loop lets through: its product exists, is
    available and has the requested quantity in stock. *)
Definition orderable (db : DB) (item : ItemRequest) : Prop :=
  ∃ p, products db !! productId item = Some p ∧
       Product.isAvailable p = true ∧
       quantity item ≤ Product.stockQuantity p.

(** The draft the validation loop pushes for an item of product [p]. *)
Definition draftOf (db : DB) (item : ItemRequest) (d : OrderItem.draft) : Prop :=
  ∃ p, products db !! productId item = Some p ∧
       OrderItem.d_productId d = productId item ∧
       OrderItem.d_quantity d = quantity item ∧
       OrderItem.d_unitPrice d = Product.price p ∧
       OrderItem.d_totalPrice d = Product.price p * quantity item.

(** Two versions of an order row that differ at most in [status] and
    [updatedAt]. *)
Definition sameButStatus (o o' : Order.t) : Prop :=
  Order.orderNumber o' = Order.orderNumber o ∧
  Order.userId o' = Order.userId o ∧
  Order.totalAmount o' = Order.totalAmount o ∧
  Order.shippingCost o' = Order.shippingCost o ∧
  Order.taxAmount o' = Order.taxAmount o ∧
  Order.shippingAddress o' = Order.shippingAddress o ∧
  Order.shippingCity o' = Order.shippingCity o ∧
  Order.shippingPostalCode o' = Order.shippingPostalCode o ∧
  Order.shippingCountry o' = Order.shippingCountry o ∧
  Order.notes o' = Order.notes o ∧
  Order.createdAt o' = Order.createdAt o.

(** What a later database keeps of an earlier one: the id generator only
    advances, and every order issued so far keeps its items and all of its
    row but [status] and [updatedAt]. *)
Definition keepsOrders (db db' : DB) : Prop :=
  (nextId db ≤ nextId db')%nat ∧
  (∀ oid, (oid < nextId db)%nat → itemsOf oid db' = itemsOf oid db) ∧
  (∀ oid o, orders db !! oid = Some o →
            ∃ o', orders db' !! oid = Some o' ∧ sameButStatus o o').

(** The reading of the stock effect of [createOrder] item by item: each
    item's product ends with its earlier stock less that item's quantity. *)
Definition stockReducedPerItem (data : CreateOrderRequest) (db db1 : DB)
  : Prop :=
  ∀ item, item ∈ items data →
    ∃ before, stockOf (productId item) db = Some before ∧
              stockOf (productId item) db1 = Some (before - quantity item).

(** The transition table of the specification (section 4.1): from
    [PENDING] to any other status, from [CONFIRMED] to [SHIPPED],
    [DELIVERED] or [CANCELLED], from [SHIPPED] to [DELIVERED] or
    [CANCELLED], and nothing from [DELIVERED] or [CANCELLED].  The service
    has no such table; it is here to state the property about it. *)
Definition specTransition (from to : OrderStatus) : bool :=
  match from, to with
  | PENDING, (CONFIRMED | SHIPPED | DELIVERED | CANCELLED) => true
  | CONFIRMED, (SHIPPED | DELIVERED | CANCELLED) => true
  | SHIPPED, (DELIVERED | CANCELLED) => true
  | _, _ => false
  end.

(** "[updateOrderStatus] rejects any transition not listed in the table". *)
Definition rejectsUnlistedTransitions : Prop :=
  ∀ now orderId status db o,
    orders db !! orderId = Some o →
    specTransition (Order.status o) status = false →
    ∃ e, updateOrderStatus now orderId status db = (db, inl e).

(** What a listing must return for the orders satisfying [P]: the page cut
    at [(page - 1) * limit] out of those orders taken once each, newest
    first, with their count and the number of pages. *)
Definition isPageOf (P : Order.t → Prop) (page limit : Z) (db : DB) (pg : Page)
  : Prop :=
  ∃ rows : list (nat * Order.t),
    (∀ k o, (k, o) ∈ rows ↔ orders db !! k = Some o ∧ P o) ∧
    NoDup rows ∧
    StronglySorted newestFirst rows ∧
    pg_orders pg =
      map (λ kv, viewOf db kv.1 kv.2)
          (take (Z.to_nat limit) (drop (Z.to_nat ((page - 1) * limit)) rows)) ∧
    StronglySorted
      (λ a b, Order.createdAt (v_order b) ≤ Order.createdAt (v_order a))
      (pg_orders pg) ∧
    Z.of_nat (length (pg_orders pg)) ≤ limit ∧
    Z.of_nat (length (pg_orders pg)) =
      Z.min limit (Z.max 0 (pg_total pg - (page - 1) * limit)) ∧
    pg_total pg = Z.of_nat (length rows) ∧
    pg_page pg = page ∧
    pg_limit pg = limit ∧
    limit * (pg_totalPages pg - 1) < pg_total pg ≤ limit * pg_totalPages pg.

(** ** Sample data *)

(** Three products: five keyboards at 10.00, seven mice at 5.00, and a
    monitor that is not available. *)
Definition sampleProducts : gmap nat Product.t :=
  <[1%nat := Product.mk "Keyboard" 1000 true 5]>
  (<[2%nat := Product.mk "Mouse" 500 true 7]>
  (<[3%nat := Product.mk "Monitor" 20000 false 4]> ∅)).

Definition sampleDB : DB := mkDB sampleProducts ∅ [] 100.

Definition sampleEnv : Env := mkEnv 1700000000000 "k3j9x0a1b" 1700000000123.

Definition request (its : list ItemRequest) : CreateOrderRequest :=
  mkRequest its (Some "1 Main St") None None None None.

(** A database holding one delivered order of two keyboards. *)
Definition deliveredDB : DB :=
  mkDB sampleProducts
       (<[100%nat := Order.mk "ORD-1700000000000-k3j9x0a1b" 9 DELIVERED 2000
                      0 0 None None None None None 1700000000123
                      1700000500000]> ∅)
       [OrderItem.mk 101 100 1 2 1000 2000] 102.

(** Twenty-five orders of user 9, created one millisecond apart. *)
Definition manyOrdersDB : DB :=
  mkDB sampleProducts
       (list_to_map
          (map (λ i : nat,
                  (i, Order.mk ("ORD-" +:+ pretty i) 9 PENDING 0 0 0
                        None None None None None (Z.of_nat i) (Z.of_nat i)))
               (seq 0 25)))
       [] 25.

(** Two requests for three keyboards each, and two schedules for them: one
    call after the other, and the two calls taking turns at every [await]. *)
Definition firstCall : Call :=
  mkCall sampleEnv 9 (request [mkItem 1 3]).

Definition secondCall : Call :=
  mkCall (mkEnv 1700000000007 "q8w2e5r7t" 1700000000130) 12
         (request [mkItem 1 3]).

Definition oneAfterTheOther : list bool :=
  replicate 7 true ++ replicate 7 false.

Definition takingTurns : list bool :=
  concat (replicate 7 [true; false]).

(** The orders on the page a listing call returns ([[]] had it thrown). *)
Definition pageOrders (r : DB * (ServiceError + Page)) : list OrderView :=
  match r.2 with
  | inr pg => pg_orders pg
  | inl _ => []
  end.

(** Pages 1 to [n] of a listing, one call per page, put end to end. *)
Definition firstPages (fetch : Z → M Page) (n : nat) (db : DB)
  : list OrderView :=
  concat (map (λ i : nat, pageOrders (fetch (Z.of_nat (S i)) db)) (seq 0 n)).

(** ** The HTTP layer of the orders API

    The controllers of controllers/order.controller.ts, the middleware of
    middlewares/auth.middleware.ts with the token functions of
    services/user.service.ts it calls, and the route table of
    routes/order.routes.ts. *)

(** The user object [authenticateToken] puts on the request; the order
    controllers read its [id] and [role]. *)
Record User := mkUser {
  u_id : nat;
  u_role : string
}.

(** What a handler sends: [res.status(code).json(body)]. *)
Inductive Body :=
| JsonOrder (order : option OrderView)
| JsonPage (page : Page)
| JsonMessage (text : string).

Record Response := mkResponse {
  statusCode : nat;
  body : Body
}.






(** [String.prototype.split] with a one-character separator. *)
Fixpoint splitOn (sep : Ascii.ascii) (s : string) : list string :=
  match s with
  | EmptyString => [EmptyString]
  | String c rest =>
      if decide (c = sep) then EmptyString :: splitOn sep rest
      else match splitOn sep rest with
           | [] => [String c EmptyString]
           | first :: others => String c first :: others
           end
  end.

(** [authHeader && authHeader.split(' ')[1]], with every falsy outcome
    ([undefined], the empty string) as [None]. *)
Definition tokenOf (authorization : option string) : option string :=
  match authorization with
  | None => None
  | Some authHeader =>
      match splitOn Ascii.Space authHeader !! 1%nat with
      | Some token => if decide (token = "") then None else Some token
      | None => None
      end
  end.

(** The keys of the token store, as Redis holds them: the user stored under
    [token:<token>] and the second from which the key is gone. *)
Definition tokenKey (token : string) : string := "token:" +:+ token.

(** [storeTokenInRedis]: [setex] with 24 hours to live. *)
Definition storeTokenInRedis (now : Z) (token : string) (user : User)
    (store : gmap string (User * Z)) : gmap string (User * Z) :=
  <[tokenKey token := (user, now + 24 * 60 * 60)]> store.

(** [getTokenFromRedis]. *)
Definition getTokenFromRedis (now : Z) (token : string)
    (store : gmap string (User * Z)) : option User :=
  match store !! tokenKey token with
  | Some (user, expiresAt) => if now <? expiresAt then Some user else None
  | None => None
  end.

(** [invalidateToken]. *)
Definition invalidateToken (token : string) (store : gmap string (User * Z))
  : gmap string (User * Z) :=
  delete (tokenKey token) store.

(** [logout] of the auth controller: the token of the header, if any, is
    invalidated; the answer is the same either way. *)
Definition logoutController (authorization : option string)
    (store : gmap string (User * Z)) : gmap string (User * Z) * Response :=
  (match tokenOf authorization with
   | Some token => invalidateToken token store
   | None => store
   end,
   mkResponse 200 (JsonMessage "Logout successful")).

(** [authenticateToken]: a response, or the user with which [next()] is
    called.  [jwtValid] says whether [jwt.verify] accepts the token
    ([verifyToken] throws when it does not). *)
Definition authenticateToken (jwtValid : string → bool) (now : Z)
    (store : gmap string (User * Z)) (authorization : option string)
  : Response + User :=
  match tokenOf authorization with
  | None => inl (mkResponse 401 (JsonMessage "Access token required"))
  | Some token =>
      if jwtValid token
      then match getTokenFromRedis now token store with
           | None => inl (mkResponse 401 (JsonMessage "Token expired or invalid"))
           | Some redisUser => inr redisUser
           end
      else inl (mkResponse 403 (JsonMessage "Invalid token"))
  end.

(** [isAdmin]: a response, or [None] when [next()] is called. *)
Definition isAdmin (user : option User) : option Response :=
  match user with
  | None => Some (mkResponse 401 (JsonMessage "Authentication required"))
  | Some u =>
      if decide (u_role u = "admin") then None
      else Some (mkResponse 403 (JsonMessage "Admin access required"))
  end.

(** *** The route table *)

Inductive Method := GET | POST | PUT | DELETE | PATCH.

#[global] Instance Method_eq_dec : EqDecision Method.
Proof. solve_decision. Defined.

(** A piece of a route path: a literal or a [:name] parameter. *)
Inductive PathPiece :=
| Lit (word : string)
| Param (name : string).

Inductive Handler :=
| HCreateOrder
| HGetUserOrders
| HGetOrder
| HCancelOrder
| HGetAllOrders
| HUpdateOrderStatus.

#[global] Instance Handler_eq_dec : EqDecision Handler.
Proof. solve_decision. Defined.

Record Route := mkRoute {
  rt_method : Method;
  rt_path : list PathPiece;
  rt_admin : bool;
  rt_handler : Handler
}.

(** The routes of routes/order.routes.ts in the order they are registered;
    [rt_admin] marks those with [isAdmin] in front of the handler. *)
Definition orderRoutes : list Route :=
  [ mkRoute POST [] false HCreateOrder;
    mkRoute GET [] false HGetUserOrders;
    mkRoute GET [Param "id"] false HGetOrder;
    mkRoute POST [Param "id"; Lit "cancel"] false HCancelOrder;
    mkRoute GET [Lit "all"] true HGetAllOrders;
    mkRoute PUT [Param "id"; Lit "status"] true HUpdateOrderStatus ].

(** Route paths are matched without regard to letter case. *)
Definition lowerAscii (c : Ascii.ascii) : Ascii.ascii :=
  let n := Ascii.nat_of_ascii c in
  if (65 <=? n)%nat && (n <=? 90)%nat then Ascii.ascii_of_nat (n + 32) else c.

Fixpoint lowerCase (s : string) : string :=
  match s with
  | EmptyString => EmptyString
  | String c rest => String (lowerAscii c) (lowerCase rest)
  end.

(** A request path is the list of its non-empty segments below the mount
    point.  A literal matches the same word; a parameter matches any
    non-empty segment and is bound to it. *)
Fixpoint matchPath (pieces : list PathPiece) (path : list string)
  : option (list (string * string)) :=
  match pieces, path with
  | [], [] => Some []
  | Lit word :: pieces', seg :: path' =>
      if decide (lowerCase seg = lowerCase word) then matchPath pieces' path'
      else None
  | Param name :: pieces', seg :: path' =>
      if decide (seg = "") then None
      else (λ params, (name, seg) :: params) <$> matchPath pieces' path'
  | _, _ => None
  end.

(** The first registered route whose method and path match gets the
    request; none of the handlers calls [next()]. *)
Fixpoint dispatchIn (routes : list Route) (m : Method) (path : list string)
  : option (Route * list (string * string)) :=
  match routes with
  | [] => None
  | r :: rest =>
      if decide (rt_method r = m)
      then match matchPath (rt_path r) path with
           | Some params => Some (r, params)
           | None => dispatchIn rest m path
           end
      else dispatchIn rest m path
  end.

Definition dispatch : Method → list string
                      → option (Route * list (string * string)) :=
  dispatchIn orderRoutes.

(** What the router does with a request: answer it itself, run a handler
    with the bound parameters and the authenticated user, or pass it on to
    whatever is mounted after it. *)
Inductive Outcome :=
| Respond (response : Response)
| Run (handler : Handler) (params : list (string * string)) (user : User)
| PassOn.

(** [router.use(authenticateToken)] in front of every route, then the route
    and its [isAdmin]. *)
Definition serveOrders (jwtValid : string → bool) (now : Z)
    (store : gmap string (User * Z)) (m : Method) (path : list string)
    (authorization : option string) : Outcome :=
  match authenticateToken jwtValid now store authorization with
  | inl response => Respond response
  | inr user =>
      match dispatch m path with
      | None => PassOn
      | Some (r, params) =>
          if rt_admin r
          then match isAdmin (Some user) with
               | Some response => Respond response
               | None => Run (rt_handler r) params user
               end
          else Run (rt_handler r) params user
      end
  end.

(** Whether a character occurs in a string. *)
Fixpoint hasChar (c : Ascii.ascii) (s : string) : bool :=
  match s with
  | EmptyString => false
  | String a rest => bool_decide (a = c) || hasChar c rest
  end.

(** A token as [jwt.sign] produces them: not empty, no space in it. *)
Definition tokenShaped (token : string) : Prop :=
  token ≠ "" ∧ hasChar Ascii.Space token = false.

(** ** The cart service (services/cart.service.ts)

    Carts live in a process-wide [Map] from user id to cart; products are
    read through [ProductService.findById], which is a [findOne] by id on the
    products table. *)

Module Cart.
(** The [product] object an item carries: a copy of the product's id, name
    and price made when the item is added (the image URL, which no code
    reads back, is left out). *)
Record snapshot := mkSnapshot {
  s_id : nat;
  s_name : string;
  s_price : Z
}.

(** [interface CartItem]. *)
Record item := mkItem {
  productId : nat;
  quantity : Z;
  product : option snapshot
}.

(** [interface Cart]. *)
Record t := mk {
  userId : nat;
  items : list item;
  totalAmount : Z;
  totalItems : Z
}.

Definition setQuantity (q : Z) (it : item) : item :=
  mkItem (productId it) q (product it).

Definition setItems (its : list item) (c : t) : t :=
  mk (userId c) its (totalAmount c) (totalItems c).

(** [item.product?.price || 0]. *)
Definition priceOf (it : item) : Z :=
  match product it with
  | Some snap => s_price snap
  | None => 0
  end.
End Cart.

(** The errors the cart service throws. *)
Inductive CartError :=
| CartProductNotFound
| CartProductUnavailable
| CartInsufficientStock (available : Z)
| CartItemNotFound.

Definition cartMessage (e : CartError) : string :=
  match e with
  | CartProductNotFound => "Product not found"
  | CartProductUnavailable => "Product is not available"
  | CartInsufficientStock available =>
      "Insufficient stock. Available: " +:+ pretty available
  | CartItemNotFound => "Item not found in cart"
  end.

Module CartService.

Definition snapshotOf (pid : nat) (p : Product.t) : Cart.snapshot :=
  Cart.mkSnapshot pid (Product.name p) (Product.price p).

(** [populateProductDetails]: an item without product details gets them if
    the product still exists. *)
Definition populateProductDetails (prods : gmap nat Product.t) (cart : Cart.t)
  : Cart.t :=
  Cart.setItems
    (map (λ it,
            match Cart.product it with
            | Some _ => it
            | None =>
                match prods !! Cart.productId it with
                | Some p =>
                    Cart.mkItem (Cart.productId it) (Cart.quantity it)
                      (Some (snapshotOf (Cart.productId it) p))
                | None => it
                end
            end)
         (Cart.items cart))
    cart.

(** [calculateTotals]: the two [reduce]s. *)
Definition calculateTotals (cart : Cart.t) : Cart.t :=
  Cart.mk (Cart.userId cart) (Cart.items cart)
    (foldl (λ sum it, sum + Cart.priceOf it * Cart.quantity it) 0
           (Cart.items cart))
    (foldl (λ sum it, sum + Cart.quantity it) 0 (Cart.items cart)).

Definition emptyCart (userId : nat) : Cart.t := Cart.mk userId [] 0 0.

(** [getCart]: the stored cart, created empty when the user has none; the
    cart object is the one in the map, so what [populateProductDetails] fills
    in is stored. *)
Definition getCart (prods : gmap nat Product.t) (userId : nat)
    (carts : gmap nat Cart.t) : gmap nat Cart.t * Cart.t :=
  let cart := default (emptyCart userId) (carts !! userId) in
  let cart' := populateProductDetails prods cart in
  (<[userId := cart']> carts, cart').

(** [items.findIndex(item => item.productId === productId)]. *)
Fixpoint findIndex (pid : nat) (its : list Cart.item) : option nat :=
  match its with
  | [] => None
  | it :: rest =>
      if decide (Cart.productId it = pid) then Some 0%nat
      else S <$> findIndex pid rest
  end.

(** [addToCart]. *)
Definition addToCart (prods : gmap nat Product.t) (userId pid : nat)
    (quantity : Z) (carts : gmap nat Cart.t)
  : gmap nat Cart.t * (CartError + Cart.t) :=
  match prods !! pid with
  | None => (carts, inl CartProductNotFound)
  | Some p =>
      if negb (Product.isAvailable p) then (carts, inl CartProductUnavailable)
      else if Product.stockQuantity p <? quantity
      then (carts, inl (CartInsufficientStock (Product.stockQuantity p)))
      else
        let '(carts1, cart) := getCart prods userId carts in
        let items' :=
          match findIndex pid (Cart.items cart) with
          | Some i =>
              alter (λ it, Cart.setQuantity (Cart.quantity it + quantity) it)
                    i (Cart.items cart)
          | None =>
              Cart.items cart ++
              [Cart.mkItem pid quantity (Some (snapshotOf pid p))]
          end in
        let cart' := calculateTotals (Cart.setItems items' cart) in
        (<[userId := cart']> carts1, inr cart')
  end.

(** [updateCartItem]. *)
Definition updateCartItem (prods : gmap nat Product.t) (userId pid : nat)
    (quantity : Z) (carts : gmap nat Cart.t)
  : gmap nat Cart.t * (CartError + Cart.t) :=
  let '(carts1, cart) := getCart prods userId carts in
  match findIndex pid (Cart.items cart) with
  | None => (carts1, inl CartItemNotFound)
  | Some i =>
      let store items' :=
        let cart' := calculateTotals (Cart.setItems items' cart) in
        (<[userId := cart']> carts1, inr cart') in
      if quantity <=? 0 then store (delete i (Cart.items cart))
      else
        let updated := alter (Cart.setQuantity quantity) i (Cart.items cart) in
        match prods !! pid with
        | Some p =>
            if Product.stockQuantity p <? quantity
            then (carts1, inl (CartInsufficientStock (Product.stockQuantity p)))
            else store updated
        | None => store updated
        end
  end.

(** [removeFromCart]. *)
Definition removeFromCart (prods : gmap nat Product.t) (userId pid : nat)
    (carts : gmap nat Cart.t) : gmap nat Cart.t * (CartError + Cart.t) :=
  let '(carts1, cart) := getCart prods userId carts in
  match findIndex pid (Cart.items cart) with
  | None => (carts1, inl CartItemNotFound)
  | Some i =>
      let cart' :=
        calculateTotals (Cart.setItems (delete i (Cart.items cart)) cart) in
      (<[userId := cart']> carts1, inr cart')
  end.

(** [clearCart]. *)
Definition clearCart (userId : nat) (carts : gmap nat Cart.t)
  : gmap nat Cart.t * Cart.t :=
  (<[userId := emptyCart userId]> carts, emptyCart userId).

End CartService.

(** A cart as the service leaves it: it is the cart of the user it is stored
    under, every item carries its product details, no product appears twice,
    and the two totals are those of the items. *)
Definition cartSound (userId : nat) (cart : Cart.t) : Prop :=
  Cart.userId cart = userId ∧
  Forall (λ it, is_Some (Cart.product it)) (Cart.items cart) ∧
  NoDup (map Cart.productId (Cart.items cart)) ∧
  Cart.totalItems cart = sumZ (map Cart.quantity (Cart.items cart)) ∧
  Cart.totalAmount cart =
    sumZ (map (λ it, Cart.priceOf it * Cart.quantity it) (Cart.items cart)).

Definition cartsSound (carts : gmap nat Cart.t) : Prop :=
  ∀ userId cart, carts !! userId = Some cart → cartSound userId cart.

(** The calls of the cart service that change carts. *)
Inductive CartOp :=
| OpGetCart (userId : nat)
| OpAddToCart (userId pid : nat) (quantity : Z)
| OpUpdateCartItem (userId pid : nat) (quantity : Z)
| OpRemoveFromCart (userId pid : nat)
| OpClearCart (userId : nat).

Definition cartUser (op : CartOp) : nat :=
  match op with
  | OpGetCart u | OpAddToCart u _ _ | OpUpdateCartItem u _ _
  | OpRemoveFromCart u _ | OpClearCart u => u
  end.

(** The carts after one call, whatever it returned or threw. *)
Definition execCart (prods : gmap nat Product.t) (op : CartOp)
    (carts : gmap nat Cart.t) : gmap nat Cart.t :=
  match op with
  | OpGetCart u => (CartService.getCart prods u carts).1
  | OpAddToCart u pid q => (CartService.addToCart prods u pid q carts).1
  | OpUpdateCartItem u pid q =>
      (CartService.updateCartItem prods u pid q carts).1
  | OpRemoveFromCart u pid => (CartService.removeFromCart prods u pid carts).1
  | OpClearCart u => (CartService.clearCart u carts).1
  end.

(** How many of a product a cart holds. *)
Definition quantityIn (pid : nat) (cart : Cart.t) : Z :=
  sumZ (map Cart.quantity
            (filter (λ it, Cart.productId it = pid) (Cart.items cart))).

(** The carts after a sequence of calls, each made against the products
    table of its moment. *)
Definition execCarts (calls : list (gmap nat Product.t * CartOp))
    (carts : gmap nat Cart.t) : gmap nat Cart.t :=
  foldl (λ cs call, execCart call.1 call.2 cs) carts calls.

(** ** The error middleware (middlewares/error.middleware.ts) *)

(** An error object as [handleError] reads it: [name], [message], the
    optional [statusCode] and [code], the [errors] and [keyValue] it may
    carry (opaque here), and whether it is an instance of [SecurityError]. *)
Record AppError := mkAppError {
  e_name : string;
  e_message : string;
  e_statusCode : option nat;
  e_code : option string;
  e_errors : option string;
  e_keyValue : option string;
  e_isSecurityError : bool
}.

(** [new ApplicationError(message, statusCode)] and its subclasses; [name]
    is the name of the class constructed. *)
Definition applicationError (className message : string) (statusCode : nat)
  : AppError :=
  mkAppError className message (Some statusCode) None None None false.

Definition validationError (message : string) (errors : option string)
  : AppError :=
  mkAppError "ValidationError" message (Some 400%nat) None errors None false.

Definition authenticationError (message : string) : AppError :=
  applicationError "AuthenticationError" message 401.

Definition authorizationError (message : string) : AppError :=
  applicationError "AuthorizationError" message 403.

Definition notFoundError (message : string) : AppError :=
  applicationError "NotFoundError" message 404.

Definition conflictError (message : string) : AppError :=
  applicationError "ConflictError" message 409.

Definition rateLimitError (message : string) : AppError :=
  applicationError "RateLimitError" message 429.

Definition securityError (message : string) : AppError :=
  mkAppError "SecurityError" message (Some 400%nat) None None None true.

(** [String.prototype.includes]. *)
Fixpoint startsWith (needle hay : string) : bool :=
  match needle, hay with
  | EmptyString, _ => true
  | String a needle', String b hay' =>
      bool_decide (a = b) && startsWith needle' hay'
  | String _ _, EmptyString => false
  end.

Fixpoint includes (needle hay : string) : bool :=
  startsWith needle hay ||
  match hay with
  | EmptyString => false
  | String _ rest => includes needle rest
  end.

(** What [handleError] returns, and whether it made the security log
    entry. *)
Record Handled := mkHandled {
  h_statusCode : nat;
  h_message : string;
  h_error : string;
  h_details : option string;
  h_securityLogged : bool
}.

(** [handleError]. *)
Definition handleError (error : AppError) : Handled :=
  let statusCode :=
    match e_statusCode error with
    | Some 0%nat | None => 500%nat
    | Some n => n
    end in
  let message :=
    if decide (e_message error = "") then "Internal server error"
    else e_message error in
  let '(statusCode, message, errorType, details) :=
    if decide (e_name error = "ValidationError")
    then (400%nat, message, "VALIDATION_ERROR", e_errors error)
    else if decide (e_name error = "CastError")
    then (400%nat, "Invalid ID format", "INVALID_ID", None)
    else if decide (e_name error = "MongoError" ∨
                    e_name error = "MongooseError")
    then (500%nat, "Database operation failed", "DATABASE_ERROR", None)
    else if decide (e_name error = "JsonWebTokenError")
    then (401%nat, "Invalid token", "INVALID_TOKEN", None)
    else if decide (e_name error = "TokenExpiredError")
    then (401%nat, "Token expired", "TOKEN_EXPIRED", None)
    else if decide (e_name error = "MulterError")
    then (400%nat, "File upload failed", "FILE_UPLOAD_ERROR", None)
    else if decide (e_code error = Some "11000")
    then (409%nat, "Resource already exists", "DUPLICATE_KEY",
          e_keyValue error)
    else if decide (e_code error = Some "ENOTFOUND" ∨
                    e_code error = Some "ECONNREFUSED")
    then (503%nat, "External service unavailable", "SERVICE_UNAVAILABLE",
          None)
    else (statusCode, message, "INTERNAL_ERROR", None) in
  mkHandled statusCode message errorType details
    (e_isSecurityError error || includes "SECURITY" errorType).

(** ** The category service (services/category.service.ts)

    The [Category] entity is not among the sources; the service touches its
    [id], which is the key of the table, and its [isActive] column, and the
    rest of a row is carried along as [fields]. *)
Record Category (F : Type) := mkCategory {
  c_isActive : bool;
  c_fields : F
}.

Arguments mkCategory {F} _ _.
Arguments c_isActive {F} _.
Arguments c_fields {F} _.

Module CategoryService.

(** [listAll]: the active categories. *)
Definition listAll {F} (table : gmap nat (Category F))
  : list (nat * Category F) :=
  filter (λ kc, c_isActive kc.2 = true) (map_to_list table).

(** [findById]. *)
Definition findById {F} (id : nat) (table : gmap nat (Category F))
  : option (Category F) :=
  table !! id.

(** [remove]: [repo.update({ id }, { isActive: false })]. *)
Definition remove {F} (id : nat) (table : gmap nat (Category F))
  : gmap nat (Category F) :=
  alter (λ c, mkCategory false (c_fields c)) id table.

End CategoryService.

(** [getCategory] and [deleteCategory] of the category controller: the
    status code sent. *)
Definition getCategoryStatus {F} (id : nat) (table : gmap nat (Category F))
  : nat :=
  match CategoryService.findById id table with
  | None => 404%nat
  | Some _ => 200%nat
  end.

Definition deleteCategoryController {F} (id : nat)
    (table : gmap nat (Category F)) : gmap nat (Category F) * nat :=
  (CategoryService.remove id table, 204%nat).

(** * Properties *)

(** ** Loops and repository calls *)

Section Loops.

Lemma bind_throw {A B} (m : M A) (k : A → M B) db db' e :
  m db = (db', inl e) → bind m k db = (db', inl e).
Proof. intros H. unfold bind. by rewrite H. Qed.

Lemma bind_ret {A B} (m : M A) (k : A → M B) db db' a :
  m db = (db', inr a) → bind m k db = k a db'.
Proof. intros H. unfold bind. by rewrite H. Qed.

Lemma addStock_addStock a b p :
  Product.addStock a (Product.addStock b p) = Product.addStock (b + a) p.
Proof. destruct p. unfold Product.addStock. simpl. f_equal. lia. Qed.

Lemma addStock_zero p : Product.addStock 0 p = p.
Proof. destruct p. unfold Product.addStock. simpl. f_equal. lia. Qed.

Lemma decrementAll_run its db :
  decrementAll its db =
  (mkDB (decremented its (products db)) (orders db) (orderItems db)
        (nextId db), inr tt).
Proof.
  revert db. induction its as [|item rest IH]; intros db.
  - by destruct db.
  - unfold decrementAll in *. simpl. unfold bind at 1. simpl.
    rewrite IH. reflexivity.
Qed.

Lemma restoreAll_run its db :
  restoreAll its db =
  (mkDB (restored its (products db)) (orders db) (orderItems db)
        (nextId db), inr tt).
Proof.
  revert db. induction its as [|it rest IH]; intros db.
  - by destruct db.
  - unfold restoreAll in *. simpl. unfold bind at 1. simpl.
    rewrite IH. reflexivity.
Qed.

Lemma decremented_lookup its (m : gmap nat Product.t) pid :
  decremented its m !! pid =
  Product.addStock (- requestedOf pid its) <$> m !! pid.
Proof.
  revert m. induction its as [|item rest IH]; intros m.
  - simpl. destruct (m !! pid) as [p|]; simpl; [|done].
    by rewrite addStock_zero.
  - unfold decremented in *. simpl. rewrite IH. unfold requestedOf.
    rewrite filter_cons. destruct (decide (productId item = pid)) as [->|Hne].
    + rewrite lookup_alter_eq. destruct (m !! pid) as [p|]; simpl; [|done].
      rewrite addStock_addStock. do 2 f_equal. lia.
    + by rewrite lookup_alter_ne.
Qed.

Lemma restored_lookup its (m : gmap nat Product.t) pid :
  restored its m !! pid = Product.addStock (recordedOf pid its) <$> m !! pid.
Proof.
  revert m. induction its as [|it rest IH]; intros m.
  - simpl. destruct (m !! pid) as [p|]; simpl; [|done].
    by rewrite addStock_zero.
  - unfold restored in *. simpl. rewrite IH. unfold recordedOf.
    rewrite filter_cons.
    destruct (decide (OrderItem.productId it = pid)) as [->|Hne].
    + rewrite lookup_alter_eq. destruct (m !! pid) as [p|]; simpl; [|done].
      rewrite addStock_addStock. do 2 f_equal.
    + by rewrite lookup_alter_ne.
Qed.

End Loops.

(** ** The validation loop of [createOrder] *)

Section Validation.

Variable db : DB.

(** Validation only reads. *)
Lemma validateItems_reads its totalAmount ds :
  (validateItems its totalAmount ds db).1 = db.
Proof.
  revert totalAmount ds. induction its as [|item rest IH]; intros t ds; [done|].
  simpl. unfold bind, findProduct.
  destruct (products db !! productId item) as [p|]; [|done].
  destruct (negb (Product.isAvailable p)); [done|].
  destruct (Product.stockQuantity p <? quantity item); [done|]. apply IH.
Qed.

(** It only throws its own three errors. *)
Lemma validateItems_throws its totalAmount ds db' e :
  validateItems its totalAmount ds db = (db', inl e) →
  isValidationError e = true.
Proof.
  revert totalAmount ds. induction its as [|item rest IH]; intros t ds; [done|].
  simpl. unfold bind, findProduct.
  destruct (products db !! productId item) as [p|]; [|by intros [= <- <-]].
  destruct (negb (Product.isAvailable p)); [by intros [= <- <-]|].
  destruct (Product.stockQuantity p <? quantity item); [by intros [= <- <-]|].
  apply IH.
Qed.

(** One orderable item is let through and its draft is pushed. *)
Lemma validateItems_step item rest totalAmount ds p :
  products db !! productId item = Some p →
  Product.isAvailable p = true →
  quantity item ≤ Product.stockQuantity p →
  validateItems (item :: rest) totalAmount ds db =
  validateItems rest (totalAmount + Product.price p * quantity item)
    (ds ++ [OrderItem.mkDraft (productId item) (quantity item)
              (Product.price p) (Product.price p * quantity item)]) db.
Proof.
  intros Hp Ha Hq. simpl. unfold bind at 1, findProduct. rewrite Hp, Ha. simpl.
  destruct (Z.ltb_spec (Product.stockQuantity p) (quantity item)); [lia|done].
Qed.

(** The three rejections, at the first item that is not orderable. *)
Lemma validateItems_notFound item rest totalAmount ds :
  products db !! productId item = None →
  validateItems (item :: rest) totalAmount ds db =
  (db, inl (ProductNotFound (productId item))).
Proof. intros Hp. simpl. unfold bind, findProduct. by rewrite Hp. Qed.

Lemma validateItems_unavailable item rest totalAmount ds p :
  products db !! productId item = Some p →
  Product.isAvailable p = false →
  validateItems (item :: rest) totalAmount ds db =
  (db, inl (ProductUnavailable (Product.name p))).
Proof. intros Hp Ha. simpl. unfold bind, findProduct. by rewrite Hp, Ha. Qed.

Lemma validateItems_insufficient item rest totalAmount ds p :
  products db !! productId item = Some p →
  Product.isAvailable p = true →
  Product.stockQuantity p < quantity item →
  validateItems (item :: rest) totalAmount ds db =
  (db, inl (InsufficientStock (Product.name p) (Product.stockQuantity p))).
Proof.
  intros Hp Ha Hq. simpl. unfold bind, findProduct. rewrite Hp, Ha. simpl.
  destruct (Z.ltb_spec (Product.stockQuantity p) (quantity item)); [done|lia].
Qed.

(** Every item is orderable or rejected for one of the three reasons. *)
Lemma orderable_dec item :
  orderable db item ∨
  products db !! productId item = None ∨
  (∃ p, products db !! productId item = Some p ∧
        Product.isAvailable p = false) ∨
  (∃ p, products db !! productId item = Some p ∧
        Product.isAvailable p = true ∧
        Product.stockQuantity p < quantity item).
Proof.
  unfold orderable. destruct (products db !! productId item) as [p|]; [|auto].
  destruct (Product.isAvailable p) eqn:Ha; [|eauto 6].
  destruct (Z.le_gt_cases (quantity item) (Product.stockQuantity p));
    [left|right; right; right]; eauto 6.
Qed.

(** Orderable items in front are skipped over. *)
Lemma validateItems_prefix pre rest totalAmount ds :
  Forall (orderable db) pre →
  ∃ totalAmount' ds',
    validateItems (pre ++ rest) totalAmount ds db =
    validateItems rest totalAmount' ds' db.
Proof.
  intros Hpre. revert totalAmount ds.
  induction Hpre as [|item pre (p & Hp & Ha & Hq) _ IH]; intros t ds.
  - by exists t, ds.
  - simpl app. rewrite (validateItems_step _ _ _ _ p) by done. apply IH.
Qed.

(** The loop succeeds exactly on requests whose items are all orderable, and
    then returns the accumulated total and one draft per item. *)
Lemma validateItems_success its totalAmount ds :
  Forall (orderable db) its →
  ∃ new,
    validateItems its totalAmount ds db =
      (db, inr (totalAmount + sumZ (map OrderItem.d_totalPrice new),
                ds ++ new)) ∧
    Forall2 (draftOf db) its new.
Proof.
  intros Hall. revert totalAmount ds.
  induction Hall as [|item rest (p & Hp & Ha & Hq) _ IH]; intros t ds.
  - exists []. simpl. unfold ret. rewrite app_nil_r, Z.add_0_r. by split.
  - rewrite (validateItems_step _ _ _ _ p) by done.
    destruct (IH (t + Product.price p * quantity item)
                 (ds ++ [OrderItem.mkDraft (productId item) (quantity item)
                    (Product.price p) (Product.price p * quantity item)]))
      as (new & Hrun & Hnew).
    exists (OrderItem.mkDraft (productId item) (quantity item)
              (Product.price p) (Product.price p * quantity item) :: new).
    split.
    + rewrite Hrun. simpl. rewrite <- app_assoc. simpl.
      by rewrite Z.add_assoc.
    + constructor; [|done]. exists p. by simpl.
Qed.

Lemma validateItems_failure its totalAmount ds :
  ¬ Forall (orderable db) its →
  ∃ e, validateItems its totalAmount ds db = (db, inl e) ∧
       isValidationError e = true.
Proof.
  revert totalAmount ds. induction its as [|item rest IH]; intros t ds Hnot.
  - destruct Hnot. constructor.
  - destruct (orderable_dec item)
      as [Hok|[Hnone|[(p & Hp & Ha)|(p & Hp & Ha & Hq)]]].
    + destruct Hok as (p & Hp & Ha & Hq).
      rewrite (validateItems_step _ _ _ _ p) by done.
      apply IH. intros Hrest. apply Hnot. constructor; [|done].
      by exists p.
    + rewrite validateItems_notFound by done. by eexists.
    + rewrite (validateItems_unavailable _ _ _ _ p) by done. by eexists.
    + rewrite (validateItems_insufficient _ _ _ _ p) by done. by eexists.
Qed.

Lemma validateItems_inversion its totalAmount ds db' totalAmount' ds' :
  validateItems its totalAmount ds db = (db', inr (totalAmount', ds')) →
  Forall (orderable db) its.
Proof.
  revert totalAmount ds. induction its as [|item rest IH]; intros t ds Hrun.
  - constructor.
  - destruct (orderable_dec item)
      as [Hok|[Hnone|[(p & Hp & Ha)|(p & Hp & Ha & Hq)]]].
    + constructor; [done|]. destruct Hok as (p & Hp & Ha & Hq).
      rewrite (validateItems_step _ _ _ _ p) in Hrun by done. eauto.
    + by rewrite validateItems_notFound in Hrun.
    + by rewrite (validateItems_unavailable _ _ _ _ p) in Hrun.
    + by rewrite (validateItems_insufficient _ _ _ _ p) in Hrun.
Qed.

End Validation.

(** ** [createOrder] *)

Section CreateOrder.

Variables (env : Env) (userId : nat) (data : CreateOrderRequest) (db : DB).

Lemma createOrder_rejected e :
  validateItems (items data) 0 [] db = (db, inl e) →
  createOrder env userId data db = (db, inl e).
Proof. intros Hval. unfold createOrder. by apply bind_throw. Qed.

Lemma createOrder_duplicate totalAmount ds :
  validateItems (items data) 0 [] db = (db, inr (totalAmount, ds)) →
  orderNumberTaken (makeOrderNumber env) db = true →
  createOrder env userId data db =
  (db, inl (DuplicateOrderNumber (makeOrderNumber env))).
Proof.
  intros Hval Htaken. unfold createOrder. rewrite (bind_ret _ _ _ _ _ Hval).
  simpl. apply bind_throw. unfold saveOrder. simpl. by rewrite Htaken.
Qed.

Lemma createOrder_created totalAmount ds :
  validateItems (items data) 0 [] db = (db, inr (totalAmount, ds)) →
  orderNumberTaken (makeOrderNumber env) db = false →
  createOrder env userId data db =
  (afterCreate env userId data totalAmount ds db,
   inr (viewOf (afterCreate env userId data totalAmount ds db) (nextId db)
               (newOrder env userId data totalAmount))).
Proof.
  intros Hval Hfree. unfold createOrder. rewrite (bind_ret _ _ _ _ _ Hval).
  simpl. unfold bind at 1, saveOrder. simpl. rewrite Hfree.
  unfold bind at 1, saveOrderItems. simpl.
  unfold bind at 1. rewrite decrementAll_run. simpl.
  unfold bind, getOrderById. simpl. rewrite lookup_insert_eq. simpl.
  reflexivity.
Qed.

(** The three ways a call ends. *)
Lemma createOrder_cases :
  (∃ e, isValidationError e = true ∧
        createOrder env userId data db = (db, inl e)) ∨
  (Forall (orderable db) (items data) ∧
   createOrder env userId data db =
   (db, inl (DuplicateOrderNumber (makeOrderNumber env)))) ∨
  (∃ new,
     Forall2 (draftOf db) (items data) new ∧
     orderNumberTaken (makeOrderNumber env) db = false ∧
     let total := sumZ (map OrderItem.d_totalPrice new) in
     createOrder env userId data db =
     (afterCreate env userId data total new db,
      inr (viewOf (afterCreate env userId data total new db) (nextId db)
                  (newOrder env userId data total)))).
Proof.
  destruct (validateItems (items data) 0 [] db) as [db' [e|[t ds]]] eqn:Hval.
  - pose proof (validateItems_reads db (items data) 0 []) as Hdb.
    rewrite Hval in Hdb. simpl in Hdb. subst db'.
    left. exists e. split; [by eapply validateItems_throws|].
    by apply createOrder_rejected.
  - pose proof (validateItems_inversion _ _ _ _ _ _ _ Hval) as Hall.
    destruct (validateItems_success db (items data) 0 [] Hall)
      as (new & Hrun & Hnew).
    rewrite Hval in Hrun. simplify_eq. right.
    destruct (orderNumberTaken (makeOrderNumber env) db) eqn:Htaken.
    + left. split; [done|]. by eapply createOrder_duplicate.
    + right. exists new. split_and!; [done..|]. simpl.
      by apply createOrder_created.
Qed.

End CreateOrder.

(** ** Rejected requests (C1) *)

(** C1.  [createOrder] fails with [ProductNotFound] when a requested product
    id matches no product, with [ProductUnavailable] when the matched
    product's availability flag is false, and with [InsufficientStock], whose
    message carries the available quantity, when the requested quantity
    exceeds the product's current stock.  The items are checked in request
    order and the checks of one item in that order, so the error thrown is
    that of the first offending item; an offending item anywhere in the
    request fails the call with one of the three errors.  Whenever the call
    fails for one of these reasons the database is the one it started from:
    no order, no order item, no change of stock. *)
Theorem createOrder_validation_errors env userId data db :
  let result := createOrder env userId data db in
  (∀ pre item post,
     items data = pre ++ item :: post →
     Forall (orderable db) pre →
     (products db !! productId item = None →
      result = (db, inl (ProductNotFound (productId item)))) ∧
     (∀ p, products db !! productId item = Some p →
           Product.isAvailable p = false →
           result = (db, inl (ProductUnavailable (Product.name p)))) ∧
     (∀ p, products db !! productId item = Some p →
           Product.isAvailable p = true →
           Product.stockQuantity p < quantity item →
           result = (db, inl (InsufficientStock (Product.name p)
                                                (Product.stockQuantity p))) ∧
           message (InsufficientStock (Product.name p)
                                      (Product.stockQuantity p)) =
           "Insufficient stock for product " +:+ Product.name p +:+
           ". Available: " +:+ pretty (Product.stockQuantity p))) ∧
  (∀ item,
     item ∈ items data →
     products db !! productId item = None ∨
     (∃ p, products db !! productId item = Some p ∧
           Product.isAvailable p = false) ∨
     (∃ p, products db !! productId item = Some p ∧
           Product.stockQuantity p < quantity item) →
     ∃ e, isValidationError e = true ∧ result = (db, inl e)) ∧
  (∀ db' e,
     result = (db', inl e) → isValidationError e = true → db' = db).
Proof.
  intros result. subst result. split_and!.
  - intros pre item post Hitems Hpre.
    destruct (validateItems_prefix db pre (item :: post) 0 [] Hpre)
      as (t & ds & Hskip).
    rewrite <- Hitems in Hskip. split_and!.
    + intros Hnone. apply createOrder_rejected.
      by rewrite Hskip, validateItems_notFound.
    + intros p Hp Ha. apply createOrder_rejected.
      by rewrite Hskip, (validateItems_unavailable _ _ _ _ _ p).
    + intros p Hp Ha Hq. split; [|done]. apply createOrder_rejected.
      by rewrite Hskip, (validateItems_insufficient _ _ _ _ _ p).
  - intros item Hin Hbad.
    assert (¬ Forall (orderable db) (items data)) as Hnot.
    { intros Hall. rewrite Forall_forall in Hall.
      destruct (Hall item Hin) as (p & Hp & Ha & Hq).
      destruct Hbad as [Hnone|[(p' & Hp' & Ha')|(p' & Hp' & Hq')]];
        simplify_eq; [congruence|lia]. }
    destruct (validateItems_failure db (items data) 0 [] Hnot) as (e & He & Hv).
    exists e. split; [done|]. by apply createOrder_rejected.
  - intros db' e Hres Hv.
    destruct (createOrder_cases env userId data db)
      as [(e' & _ & Hrun)|[(_ & Hrun)|(new & _ & _ & Hrun)]];
      simpl in Hrun; rewrite Hrun in Hres; by simplify_eq.
Qed.

(** A request for two keyboards and one monitor, the monitor being
    unavailable; then six keyboards when five are in stock; then a product
    that does not exist. *)
Lemma createOrder_validation_errors_witness :
  createOrder sampleEnv 9 (request [mkItem 1 2; mkItem 3 1]) sampleDB =
    (sampleDB, inl (ProductUnavailable "Monitor")) ∧
  createOrder sampleEnv 9 (request [mkItem 1 6]) sampleDB =
    (sampleDB, inl (InsufficientStock "Keyboard" 5)) ∧
  createOrder sampleEnv 9 (request [mkItem 2 1; mkItem 8 1]) sampleDB =
    (sampleDB, inl (ProductNotFound 8)).
Proof.
  split_and!.
  - refine (proj1 (proj2 (proj1 (createOrder_validation_errors sampleEnv 9
      (request [mkItem 1 2; mkItem 3 1]) sampleDB)
      [mkItem 1 2] (mkItem 3 1) [] eq_refl _))
      (Product.mk "Monitor" 20000 false 4) eq_refl eq_refl).
    constructor; [|constructor].
    exists (Product.mk "Keyboard" 1000 true 5). simpl. split_and!; [done..|lia].
  - refine (proj1 (proj2 (proj2 (proj1 (createOrder_validation_errors sampleEnv 9
      (request [mkItem 1 6]) sampleDB)
      [] (mkItem 1 6) [] eq_refl _))
      (Product.mk "Keyboard" 1000 true 5) eq_refl eq_refl _)).
    + constructor.
    + simpl. lia.
  - refine (proj1 (proj1 (createOrder_validation_errors sampleEnv 9
      (request [mkItem 2 1; mkItem 8 1]) sampleDB)
      [mkItem 2 1] (mkItem 8 1) [] eq_refl _) eq_refl).
    constructor; [|constructor].
    exists (Product.mk "Mouse" 500 true 7). simpl. split_and!; [done..|lia].
Defined.

(** ** [updateOrderStatus] and [cancelOrder] *)

Lemma updateOrderStatus_run now orderId status db :
  updateOrderStatus now orderId status db =
  (afterStatus now orderId status db,
   inr (viewOf (afterStatus now orderId status db) orderId
          <$> (Order.setStatus status now <$> orders db !! orderId))).
Proof.
  unfold updateOrderStatus, bind, updateStatusRow, getOrderById. simpl.
  by rewrite lookup_alter_eq.
Qed.

Section CancelOrder.

Variables (now : Z) (orderId : nat) (db : DB).

Lemma cancelOrder_missing :
  orders db !! orderId = None →
  cancelOrder now orderId db = (db, inl OrderNotFound).
Proof.
  intros Hnone. unfold cancelOrder, bind, getOrderById. by rewrite Hnone.
Qed.

Lemma cancelOrder_cancelled o :
  orders db !! orderId = Some o → Order.status o = CANCELLED →
  cancelOrder now orderId db = (db, inl AlreadyCancelled).
Proof.
  intros Ho Hs. unfold cancelOrder, bind, getOrderById. rewrite Ho. simpl.
  by rewrite decide_True.
Qed.

Lemma cancelOrder_delivered o :
  orders db !! orderId = Some o → Order.status o = DELIVERED →
  cancelOrder now orderId db = (db, inl CannotCancelDelivered).
Proof.
  intros Ho Hs. unfold cancelOrder, bind, getOrderById. rewrite Ho. simpl.
  rewrite decide_False by congruence. by rewrite decide_True.
Qed.

Lemma cancelOrder_done o :
  orders db !! orderId = Some o →
  Order.status o ≠ CANCELLED → Order.status o ≠ DELIVERED →
  cancelOrder now orderId db =
  (afterCancel now orderId db,
   inr (Some (viewOf (afterCancel now orderId db) orderId
                     (Order.setStatus CANCELLED now o)))).
Proof.
  intros Ho Hc Hd. unfold cancelOrder. unfold bind at 1, getOrderById.
  rewrite Ho. simpl. rewrite !decide_False by done.
  unfold bind at 1. rewrite restoreAll_run. simpl.
  rewrite updateOrderStatus_run. simpl. by rewrite Ho.
Qed.

(** The four ways a call ends. *)
Lemma cancelOrder_cases :
  (∃ e, cancelOrder now orderId db = (db, inl e)) ∨
  (∃ o, orders db !! orderId = Some o ∧
        Order.status o ≠ CANCELLED ∧ Order.status o ≠ DELIVERED ∧
        cancelOrder now orderId db =
        (afterCancel now orderId db,
         inr (Some (viewOf (afterCancel now orderId db) orderId
                           (Order.setStatus CANCELLED now o))))).
Proof.
  destruct (orders db !! orderId) as [o|] eqn:Ho.
  - destruct (decide (Order.status o = CANCELLED)) as [Hc|Hc].
    { left. eexists. by eapply cancelOrder_cancelled. }
    destruct (decide (Order.status o = DELIVERED)) as [Hd|Hd].
    { left. eexists. by eapply cancelOrder_delivered. }
    right. exists o. split_and!; [done..|]. by apply cancelOrder_done.
  - left. eexists. by apply cancelOrder_missing.
Qed.

End CancelOrder.

(** ** What every call keeps of the orders already stored *)

Section Keeping.

Lemma filter_all {A} (P : A → Prop) `{!∀ x, Decision (P x)} (l : list A) :
  Forall P l → filter P l = l.
Proof.
  induction 1 as [|x l Hx _ IH]; [done|].
  rewrite filter_cons, decide_True by done. by rewrite IH.
Qed.

Lemma filter_none {A} (P : A → Prop) `{!∀ x, Decision (P x)} (l : list A) :
  Forall (λ x, ¬ P x) l → filter P l = [].
Proof.
  induction 1 as [|x l Hx _ IH]; [done|].
  by rewrite filter_cons, decide_False.
Qed.

Lemma insertItems_orderId oid first ds :
  Forall (λ it, OrderItem.orderId it = oid) (insertItems oid first ds).
Proof.
  revert first. induction ds as [|d ds IH]; intros first; simpl; [done|].
  constructor; [done|apply IH].
Qed.

Lemma insertItems_totalPrice oid first ds :
  map OrderItem.totalPrice (insertItems oid first ds) =
  map OrderItem.d_totalPrice ds.
Proof.
  revert first. induction ds as [|d ds IH]; intros first; simpl; [done|].
  by rewrite IH.
Qed.

Lemma sameButStatus_refl o : sameButStatus o o.
Proof. by repeat split. Qed.

Lemma sameButStatus_setStatus s now o : sameButStatus o (Order.setStatus s now o).
Proof. by repeat split. Qed.

Lemma sameButStatus_trans o1 o2 o3 :
  sameButStatus o1 o2 → sameButStatus o2 o3 → sameButStatus o1 o3.
Proof.
  unfold sameButStatus. intros H12 H23.
  destruct_and!. split_and!; congruence.
Qed.

Lemma keepsOrders_refl db : keepsOrders db db.
Proof.
  split_and!; [done..|]. intros oid o Ho. exists o. split; [done|].
  apply sameButStatus_refl.
Qed.

Lemma keepsOrders_trans db1 db2 db3 :
  keepsOrders db1 db2 → keepsOrders db2 db3 → keepsOrders db1 db3.
Proof.
  intros (Hn12 & Hi12 & Ho12) (Hn23 & Hi23 & Ho23). split_and!.
  - lia.
  - intros oid Hlt. rewrite Hi23 by lia. by apply Hi12.
  - intros oid o Ho. destruct (Ho12 _ _ Ho) as (o2 & Ho2 & Hs12).
    destruct (Ho23 _ _ Ho2) as (o3 & Ho3 & Hs23).
    exists o3. split; [done|]. by eapply sameButStatus_trans.
Qed.

(** Items of orders stored before a creation are not touched by it, and
    the new order's items are exactly the rows just inserted. *)
Lemma itemsOf_afterCreate_old env userId data totalAmount ds db oid :
  oid ≠ nextId db →
  itemsOf oid (afterCreate env userId data totalAmount ds db) = itemsOf oid db.
Proof.
  intros Hne. unfold itemsOf, afterCreate. simpl. rewrite filter_app.
  rewrite (filter_none _ (insertItems _ _ _)); [by rewrite app_nil_r|].
  eapply Forall_impl; [apply insertItems_orderId|]. simpl. congruence.
Qed.

Lemma itemsOf_afterCreate_new env userId data totalAmount ds db :
  wellFormed db →
  itemsOf (nextId db) (afterCreate env userId data totalAmount ds db) =
  insertItems (nextId db) (S (nextId db)) ds.
Proof.
  intros [_ Hitems]. unfold itemsOf, afterCreate. simpl. rewrite filter_app.
  rewrite (filter_none _ (orderItems db)).
  - simpl. apply filter_all, insertItems_orderId.
  - apply Forall_forall. intros it Hin Heq. specialize (Hitems it Hin). lia.
Qed.

Lemma wellFormed_afterCreate env userId data totalAmount ds db :
  wellFormed db → wellFormed (afterCreate env userId data totalAmount ds db).
Proof.
  intros [Hord Hitems]. split; simpl.
  - intros k o. rewrite lookup_insert. case_decide; [lia|].
    intros Hk. specialize (Hord _ _ Hk). lia.
  - intros it. rewrite elem_of_app. intros [Hin|Hin].
    + specialize (Hitems it Hin). lia.
    + pose proof (insertItems_orderId (nextId db) (S (nextId db)) ds) as Hall.
      rewrite Forall_forall in Hall. rewrite (Hall it Hin). lia.
Qed.

Lemma keepsOrders_afterCreate env userId data totalAmount ds db :
  wellFormed db →
  keepsOrders db (afterCreate env userId data totalAmount ds db).
Proof.
  intros [Hord Hitems]. split_and!.
  - simpl. lia.
  - intros oid Hlt. apply itemsOf_afterCreate_old. lia.
  - intros oid o Ho. exists o. split; [|apply sameButStatus_refl].
    simpl. rewrite lookup_insert_ne; [done|]. specialize (Hord _ _ Ho). lia.
Qed.

Lemma wellFormed_afterStatus now orderId status db :
  wellFormed db → wellFormed (afterStatus now orderId status db).
Proof.
  intros [Hord Hitems]. split; simpl; [|done].
  intros k o. rewrite lookup_alter. case_decide; [subst|by apply Hord].
  destruct (orders db !! k) as [o0|] eqn:Hk; [|done]. intros _. by eapply Hord.
Qed.

Lemma keepsOrders_afterStatus now orderId status db :
  keepsOrders db (afterStatus now orderId status db).
Proof.
  split_and!; [done..|]. intros oid o Ho. simpl. rewrite lookup_alter.
  case_decide; subst; rewrite Ho; simpl; eexists; (split; [done|]).
  - apply sameButStatus_setStatus.
  - apply sameButStatus_refl.
Qed.

Lemma wellFormed_afterCancel now orderId db :
  wellFormed db → wellFormed (afterCancel now orderId db).
Proof. intros [Hord Hitems]. by apply wellFormed_afterStatus. Qed.

Lemma keepsOrders_afterCancel now orderId db :
  keepsOrders db (afterCancel now orderId db).
Proof.
  destruct (keepsOrders_afterStatus now orderId CANCELLED
              (mkDB (restored (itemsOf orderId db) (products db)) (orders db)
                    (orderItems db) (nextId db))) as (Hn & Hi & Ho).
  by split_and!.
Qed.

(** Every call keeps the tables well formed and keeps the stored orders. *)
Lemma exec_wellFormed op db : wellFormed db → wellFormed (exec op db).
Proof.
  intros Hwf. destruct op as [env uid data|oid|uid page limit|page limit
                             |now oid s|now oid]; unfold exec;
    try exact Hwf.
  - destruct (createOrder_cases env uid data db)
      as [(e & _ & ->)|[(_ & ->)|(new & _ & _ & Hrun)]]; [done..|].
    simpl in Hrun. rewrite Hrun. by apply wellFormed_afterCreate.
  - rewrite updateOrderStatus_run. by apply wellFormed_afterStatus.
  - destruct (cancelOrder_cases now oid db)
      as [(e & ->)|(o & _ & _ & _ & ->)]; [done|].
    by apply wellFormed_afterCancel.
Qed.

Lemma exec_keepsOrders op db : wellFormed db → keepsOrders db (exec op db).
Proof.
  intros Hwf. destruct op as [env uid data|oid|uid page limit|page limit
                             |now oid s|now oid]; unfold exec;
    try apply keepsOrders_refl.
  - destruct (createOrder_cases env uid data db)
      as [(e & _ & ->)|[(_ & ->)|(new & _ & _ & Hrun)]];
      [apply keepsOrders_refl..|].
    simpl in Hrun. rewrite Hrun. by apply keepsOrders_afterCreate.
  - rewrite updateOrderStatus_run. apply keepsOrders_afterStatus.
  - destruct (cancelOrder_cases now oid db)
      as [(e & ->)|(o & _ & _ & _ & ->)]; [apply keepsOrders_refl|].
    apply keepsOrders_afterCancel.
Qed.

Lemma execAll_keeps ops db :
  wellFormed db → wellFormed (execAll ops db) ∧ keepsOrders db (execAll ops db).
Proof.
  revert db. induction ops as [|op ops IH]; intros db Hwf.
  - split; [done|apply keepsOrders_refl].
  - simpl. destruct (IH (exec op db) (exec_wellFormed op db Hwf)) as [Hwf' Hk].
    split; [done|]. eapply keepsOrders_trans; [|done].
    by apply exec_keepsOrders.
Qed.

End Keeping.

(** ** Totals of a created order (C2) *)

Lemma wellFormed_initial prods n : wellFormed (mkDB prods ∅ [] n).
Proof.
  split; simpl.
  - intros k o Hk. by rewrite lookup_empty in Hk.
  - intros it Hin. by apply elem_of_nil in Hin.
Qed.

Lemma insertItems_drafts db its ds oid first :
  Forall2 (draftOf db) its ds →
  Forall2 (λ item it,
             OrderItem.productId it = productId item ∧
             OrderItem.quantity it = quantity item ∧
             (∃ p, products db !! productId item = Some p ∧
                   OrderItem.unitPrice it = Product.price p) ∧
             OrderItem.totalPrice it =
               OrderItem.quantity it * OrderItem.unitPrice it)
          its (insertItems oid first ds).
Proof.
  intros Hds. revert first.
  induction Hds as [|item d its ds (p & Hp & Hpid & Hq & Hu & Ht) _ IH];
    intros first; simpl; constructor; [|apply IH].
  simpl. split_and!; [done..| |].
  - exists p. by split.
  - rewrite Ht, Hq, Hu. lia.
Qed.

(** C2.  For an order [createOrder] returns, [totalAmount] is the sum of its
    items' [totalPrice]; the items are those of the request, in order, each
    with [unitPrice] the price of its product at the time of the call and
    [totalPrice = quantity * unitPrice]; and after any further sequence of
    calls to the service the order is still stored with the same items and
    the same [totalAmount]. *)
Theorem createOrder_totals env userId data db db1 view :
  wellFormed db →
  createOrder env userId data db = (db1, inr view) →
  Order.totalAmount (v_order view) =
    sumZ (map OrderItem.totalPrice (v_items view)) ∧
  Forall2 (λ item it,
             OrderItem.productId it = productId item ∧
             OrderItem.quantity it = quantity item ∧
             (∃ p, products db !! productId item = Some p ∧
                   OrderItem.unitPrice it = Product.price p) ∧
             OrderItem.totalPrice it =
               OrderItem.quantity it * OrderItem.unitPrice it)
          (items data) (v_items view) ∧
  ∀ ops,
    ∃ o', getOrderById (v_id view) (execAll ops db1) =
            (execAll ops db1, inr (Some (mkView (v_id view) o' (v_items view)))) ∧
          Order.totalAmount o' = Order.totalAmount (v_order view) ∧
          Order.totalAmount o' = sumZ (map OrderItem.totalPrice (v_items view)).
Proof.
  intros Hwf Hrun.
  destruct (createOrder_cases env userId data db)
    as [(e & _ & Hc)|[(_ & Hc)|(new & Hnew & _ & Hc)]];
    simpl in Hc; rewrite Hc in Hrun; simplify_eq.
  set (total := sumZ (map OrderItem.d_totalPrice new)).
  set (db1 := afterCreate env userId data total new db).
  assert (itemsOf (nextId db) db1 = insertItems (nextId db) (S (nextId db)) new)
    as Hitems by by apply itemsOf_afterCreate_new.
  assert (total = sumZ (map OrderItem.totalPrice (itemsOf (nextId db) db1)))
    as Hsum by by rewrite Hitems, insertItems_totalPrice.
  simpl. split_and!.
  - done.
  - rewrite Hitems. by apply insertItems_drafts.
  - intros ops.
    destruct (execAll_keeps ops db1) as (_ & Hn & Hi & Ho).
    { by apply wellFormed_afterCreate. }
    destruct (Ho (nextId db) (newOrder env userId data total))
      as (o' & Ho' & Hsame).
    { subst db1. simpl. by rewrite lookup_insert_eq. }
    exists o'. unfold getOrderById. rewrite Ho'. simpl. unfold viewOf.
    rewrite Hi by (subst db1; simpl; lia).
    destruct Hsame as (_ & _ & Htotal & _). simpl in Htotal.
    split_and!; [done|done|]. by rewrite Htotal.
Qed.

(** Two keyboards and a mouse: 2 * 10.00 + 5.00 = 25.00, still so after the
    order is shipped. *)
Lemma createOrder_totals_witness :
  ∃ db1 view,
    createOrder sampleEnv 9 (request [mkItem 1 2; mkItem 2 1]) sampleDB =
      (db1, inr view) ∧
    Order.totalAmount (v_order view) = 2500 ∧
    sumZ (map OrderItem.totalPrice (v_items view)) = 2500 ∧
    ∃ o', getOrderById (v_id view)
            (execAll [OpUpdateOrderStatus 1 100 SHIPPED] db1) =
            (execAll [OpUpdateOrderStatus 1 100 SHIPPED] db1,
             inr (Some (mkView (v_id view) o' (v_items view)))) ∧
          Order.totalAmount o' = 2500.
Proof.
  eexists _, _. split; [reflexivity|].
  destruct (createOrder_totals sampleEnv 9 (request [mkItem 1 2; mkItem 2 1])
              sampleDB _ _ (wellFormed_initial sampleProducts 100) eq_refl)
    as (Htotal & _ & Hlater).
  split; [reflexivity|]. split; [reflexivity|].
  destruct (Hlater [OpUpdateOrderStatus 1 100 SHIPPED]) as (o' & Hget & Ht & _).
  exists o'. split; [exact Hget|]. rewrite Ht. reflexivity.
Defined.

(** ** Stock after a created order (C4) *)

Lemma requestedOf_unreferenced pid its :
  pid ∉ map productId its → requestedOf pid its = 0.
Proof.
  intros Hnot. unfold requestedOf. rewrite filter_none; [done|].
  apply Forall_forall. intros it Hin Heq. apply Hnot.
  apply list_elem_of_fmap. by exists it.
Qed.

Lemma requestedOf_single item its :
  item ∈ its → NoDup (map productId its) →
  requestedOf (productId item) its = quantity item.
Proof.
  induction its as [|it rest IH]; intros Hin Hnodup.
  - by apply elem_of_nil in Hin.
  - simpl in Hnodup. apply NoDup_cons in Hnodup as [Hfresh Hnodup].
    unfold requestedOf in *. rewrite filter_cons.
    apply elem_of_cons in Hin as [->|Hin].
    + rewrite decide_True by done. simpl.
      fold (requestedOf (productId it) rest).
      rewrite requestedOf_unreferenced by done. unfold sumZ. lia.
    + rewrite decide_False; [by apply IH|]. intros Heq. apply Hfresh.
      rewrite Heq. apply list_elem_of_fmap. by exists item.
Qed.

Lemma drafted_exists db its ds :
  Forall2 (draftOf db) its ds →
  ∀ item, item ∈ its → is_Some (products db !! productId item).
Proof.
  induction 1 as [|it d its ds (p & Hp & _) _ IH]; intros item Hin.
  - by apply elem_of_nil in Hin.
  - apply elem_of_cons in Hin as [->|Hin]; [by exists p|by apply IH].
Qed.

(** C4, as first stated, fails: the stock of one product drops by two when
    two items of one unit each name it. *)
Lemma createOrder_stock_per_item_counterexample :
  ∃ db1 view,
    createOrder sampleEnv 9 (request [mkItem 1 1; mkItem 1 1]) sampleDB =
      (db1, inr view) ∧
    stockOf 1 sampleDB = Some 5 ∧
    stockOf 1 db1 = Some 3 ∧
    ¬ stockReducedPerItem (request [mkItem 1 1; mkItem 1 1]) sampleDB db1.
Proof.
  eexists _, _. split; [reflexivity|]. split; [reflexivity|].
  split; [reflexivity|]. intros Hclaim.
  destruct (Hclaim (mkItem 1 1)) as (before & Hbefore & Hafter).
  { simpl. apply list_elem_of_here. }
  vm_compute in Hbefore. injection Hbefore as <-.
  vm_compute in Hafter. discriminate.
Qed.

(** C4 (as amended).  After a [createOrder] that returns, every product's
    stock is its stock before the call less the total quantity the request
    orders of that product, and nothing else of the product changes; so a
    product no item names is unchanged, and when no two items name the same
    product each named product's stock is its earlier stock less the
    quantity of its item. *)
Theorem createOrder_stock env userId data db db1 view :
  createOrder env userId data db = (db1, inr view) →
  (∀ pid, products db1 !! pid =
          Product.addStock (- requestedOf pid (items data))
            <$> products db !! pid) ∧
  (∀ pid, stockOf pid db1 =
          (λ before, before - requestedOf pid (items data))
            <$> stockOf pid db) ∧
  (∀ pid, pid ∉ map productId (items data) →
          products db1 !! pid = products db !! pid) ∧
  (NoDup (map productId (items data)) → stockReducedPerItem data db db1).
Proof.
  intros Hrun.
  destruct (createOrder_cases env userId data db)
    as [(e & _ & Hc)|[(_ & Hc)|(new & Hnew & _ & Hc)]];
    simpl in Hc; rewrite Hc in Hrun; simplify_eq.
  assert (∀ pid,
    products (afterCreate env userId data
                (sumZ (map OrderItem.d_totalPrice new)) new db) !! pid =
    Product.addStock (- requestedOf pid (items data)) <$> products db !! pid)
    as Hlookup by (intros pid; apply decremented_lookup).
  assert (∀ pid,
    stockOf pid (afterCreate env userId data
                   (sumZ (map OrderItem.d_totalPrice new)) new db) =
    (λ before, before - requestedOf pid (items data)) <$> stockOf pid db)
    as Hstock.
  { intros pid. unfold stockOf. rewrite Hlookup.
    by destruct (products db !! pid) as [p|]. }
  split_and!; [done|done| |].
  - intros pid Hnot. rewrite Hlookup, requestedOf_unreferenced by done.
    destruct (products db !! pid) as [p|]; simpl; [|done].
    by rewrite addStock_zero.
  - intros Hnodup item Hin.
    destruct (drafted_exists _ _ _ Hnew item Hin) as [p Hp].
    exists (Product.stockQuantity p). rewrite Hstock. unfold stockOf.
    rewrite Hp. simpl. split; [done|].
    by rewrite requestedOf_single.
Qed.

(** Two keyboards and a mouse out of five and seven. *)
Lemma createOrder_stock_witness :
  ∃ db1 view,
    createOrder sampleEnv 9 (request [mkItem 1 2; mkItem 2 1]) sampleDB =
      (db1, inr view) ∧
    stockOf 1 db1 = Some 3 ∧ stockOf 2 db1 = Some 6 ∧ stockOf 3 db1 = Some 4.
Proof.
  eexists _, _. split; [reflexivity|].
  destruct (createOrder_stock sampleEnv 9 (request [mkItem 1 2; mkItem 2 1])
              sampleDB _ _ eq_refl) as (_ & Hstock & _).
  rewrite !Hstock. split_and!; reflexivity.
Defined.

(** ** Cancellation (C5, C6) *)

Lemma recordedOf_unreferenced pid its :
  pid ∉ map OrderItem.productId its → recordedOf pid its = 0.
Proof.
  intros Hnot. unfold recordedOf. rewrite filter_none; [done|].
  apply Forall_forall. intros it Hin Heq. apply Hnot.
  apply list_elem_of_fmap. by exists it.
Qed.

Lemma recordedOf_single item its :
  item ∈ its → NoDup (map OrderItem.productId its) →
  recordedOf (OrderItem.productId item) its = OrderItem.quantity item.
Proof.
  induction its as [|it rest IH]; intros Hin Hnodup.
  - by apply elem_of_nil in Hin.
  - simpl in Hnodup. apply NoDup_cons in Hnodup as [Hfresh Hnodup].
    unfold recordedOf in *. rewrite filter_cons.
    apply elem_of_cons in Hin as [->|Hin].
    + rewrite decide_True by done. simpl.
      fold (recordedOf (OrderItem.productId it) rest).
      rewrite recordedOf_unreferenced by done. unfold sumZ. lia.
    + rewrite decide_False; [by apply IH|]. intros Heq. apply Hfresh.
      rewrite Heq. apply list_elem_of_fmap. by exists item.
Qed.

Lemma afterCancel_stock now orderId db pid :
  stockOf pid (afterCancel now orderId db) =
  (λ before, before + recordedOf pid (itemsOf orderId db)) <$> stockOf pid db.
Proof.
  unfold stockOf, afterCancel. simpl. rewrite restored_lookup.
  by destruct (products db !! pid).
Qed.

(** C5.  On an existing order that is neither [DELIVERED] nor [CANCELLED],
    [cancelOrder] returns the order with status [CANCELLED], stores that
    status, and runs one stock increment per item of the order, by the
    quantity recorded on the item: every product's stock ends as its earlier
    stock plus the quantities recorded for it on the order's items, which for
    a product named by one item is that item's quantity.  Nothing else of
    the order, and no order item, changes. *)
Theorem cancelOrder_restores now orderId db o :
  orders db !! orderId = Some o →
  Order.status o ≠ DELIVERED →
  Order.status o ≠ CANCELLED →
  ∃ db1 view,
    cancelOrder now orderId db = (db1, inr (Some view)) ∧
    v_id view = orderId ∧
    Order.status (v_order view) = CANCELLED ∧
    orders db1 !! orderId = Some (v_order view) ∧
    sameButStatus o (v_order view) ∧
    products db1 = restored (itemsOf orderId db) (products db) ∧
    (∀ pid, stockOf pid db1 =
            (λ before, before + recordedOf pid (itemsOf orderId db))
              <$> stockOf pid db) ∧
    (NoDup (map OrderItem.productId (itemsOf orderId db)) →
     ∀ it before, it ∈ itemsOf orderId db →
       stockOf (OrderItem.productId it) db = Some before →
       stockOf (OrderItem.productId it) db1 =
         Some (before + OrderItem.quantity it)) ∧
    orderItems db1 = orderItems db.
Proof.
  intros Ho Hd Hc. eexists _, _. split; [by apply cancelOrder_done|].
  split; [done|]. split; [done|]. split.
  { simpl. rewrite lookup_alter_eq. by rewrite Ho. }
  split; [apply sameButStatus_setStatus|]. split; [done|]. split.
  { apply afterCancel_stock. }
  split; [|done].
  intros Hnodup it before Hin Hbefore. rewrite afterCancel_stock, Hbefore.
  simpl. by rewrite recordedOf_single.
Qed.

(** The order of two keyboards and a mouse, cancelled: stock is back at five
    and seven. *)
Lemma cancelOrder_restores_witness :
  ∃ db0 db1 view,
    (createOrder sampleEnv 9 (request [mkItem 1 2; mkItem 2 1]) sampleDB).1
      = db0 ∧
    stockOf 1 db0 = Some 3 ∧ stockOf 2 db0 = Some 6 ∧
    cancelOrder 1700000009999 100 db0 = (db1, inr (Some view)) ∧
    Order.status (v_order view) = CANCELLED ∧
    stockOf 1 db1 = Some 5 ∧ stockOf 2 db1 = Some 7.
Proof.
  eexists _.
  destruct (cancelOrder_restores 1700000009999 100
    (createOrder sampleEnv 9 (request [mkItem 1 2; mkItem 2 1]) sampleDB).1
    (newOrder sampleEnv 9 (request [mkItem 1 2; mkItem 2 1]) 2500))
    as (db1 & view & Hrun & _ & Hstatus & _ & _ & _ & Hstock & _).
  - reflexivity.
  - discriminate.
  - discriminate.
  - exists db1, view. split; [reflexivity|].
    split; [reflexivity|]. split; [reflexivity|].
    split; [exact Hrun|]. split; [exact Hstatus|].
    rewrite !Hstock. split; reflexivity.
Defined.

(** C6.  [cancelOrder] on an order that is already [CANCELLED], or that is
    [DELIVERED], throws (the spec's [InvalidTransition]) and leaves the
    database, hence every stock and the order's status, as it was.  So a
    second [cancelOrder] on an order just cancelled throws and changes
    nothing: across both calls stock is restored once. *)
Theorem cancelOrder_terminal now orderId db o :
  orders db !! orderId = Some o →
  (Order.status o = CANCELLED →
   cancelOrder now orderId db = (db, inl AlreadyCancelled)) ∧
  (Order.status o = DELIVERED →
   cancelOrder now orderId db = (db, inl CannotCancelDelivered)) ∧
  isInvalidTransition AlreadyCancelled = true ∧
  isInvalidTransition CannotCancelDelivered = true ∧
  (∀ db1 view later,
     cancelOrder now orderId db = (db1, inr view) →
     cancelOrder later orderId db1 = (db1, inl AlreadyCancelled) ∧
     ∀ pid, stockOf pid db1 =
            (λ before, before + recordedOf pid (itemsOf orderId db))
              <$> stockOf pid db).
Proof.
  intros Ho. split_and!; try done.
  - intros Hs. by eapply cancelOrder_cancelled.
  - intros Hs. by eapply cancelOrder_delivered.
  - intros db1 view later Hrun.
    destruct (cancelOrder_cases now orderId db)
      as [(e & He)|(o' & Ho' & _ & _ & Hdone)];
      [rewrite He in Hrun; by simplify_eq|].
    rewrite Hdone in Hrun. simplify_eq. split.
    + apply (cancelOrder_cancelled _ _ _ (Order.setStatus CANCELLED now o)).
      * simpl. rewrite lookup_alter_eq. by rewrite Ho.
      * done.
    + intros pid. apply afterCancel_stock.
Qed.

(** The same order cancelled twice: the second call throws and stock stays
    at five and seven. *)
Lemma cancelOrder_terminal_witness :
  ∃ db0 db1 view,
    (createOrder sampleEnv 9 (request [mkItem 1 2; mkItem 2 1]) sampleDB).1
      = db0 ∧
    cancelOrder 1700000009999 100 db0 = (db1, inr view) ∧
    cancelOrder 1700000019999 100 db1 = (db1, inl AlreadyCancelled) ∧
    stockOf 1 db1 = Some 5 ∧ stockOf 2 db1 = Some 7.
Proof.
  eexists _, _, _. split; [reflexivity|]. split; [reflexivity|].
  destruct (cancelOrder_terminal 1700000009999 100
    (createOrder sampleEnv 9 (request [mkItem 1 2; mkItem 2 1]) sampleDB).1
    (newOrder sampleEnv 9 (request [mkItem 1 2; mkItem 2 1]) 2500) eq_refl)
    as (_ & _ & _ & _ & Htwice).
  destruct (Htwice _ _ 1700000019999 eq_refl) as [Hsecond Hstock].
  split; [exact Hsecond|]. split; reflexivity.
Defined.

(** ** Status updates (C7, C10) *)

(** C7, as first stated, fails: a delivered order is set back to
    [PENDING]. *)
Lemma updateOrderStatus_terminal_counterexample :
  specTransition DELIVERED PENDING = false ∧
  (Order.status <$> orders deliveredDB !! 100%nat) = Some DELIVERED ∧
  (∃ db1 view,
     updateOrderStatus 1700000600000 100 PENDING deliveredDB =
       (db1, inr (Some view)) ∧
     Order.status (v_order view) = PENDING ∧
     (Order.status <$> orders db1 !! 100%nat) = Some PENDING) ∧
  ¬ rejectsUnlistedTransitions.
Proof.
  split; [reflexivity|]. split; [reflexivity|]. split.
  - eexists _, _. split; [reflexivity|]. split; reflexivity.
  - intros Hclaim.
    destruct (Hclaim 1700000600000 100%nat PENDING deliveredDB _ eq_refl eq_refl)
      as (e & He).
    vm_compute in He. discriminate.
Qed.

(** C7 (as amended).  [updateOrderStatus] checks no transition: on an
    existing order it stores whatever status is requested, from any current
    status, [DELIVERED] and [CANCELLED] included, and returns the order with
    that status.  It leaves the order's items as they are; and no call to
    the service changes the items of an order already stored. *)
Theorem updateOrderStatus_unchecked now orderId status db o :
  orders db !! orderId = Some o →
  (∃ db1 view,
     updateOrderStatus now orderId status db = (db1, inr (Some view)) ∧
     v_id view = orderId ∧
     Order.status (v_order view) = status ∧
     orders db1 !! orderId = Some (v_order view) ∧
     v_items view = itemsOf orderId db ∧
     orderItems db1 = orderItems db) ∧
  (wellFormed db → ∀ op, itemsOf orderId (exec op db) = itemsOf orderId db).
Proof.
  intros Ho. split.
  - eexists _, _. rewrite updateOrderStatus_run, Ho. simpl.
    split; [reflexivity|]. split; [done|]. split; [done|].
    split; [|done]. unfold afterStatus. simpl.
    rewrite lookup_alter_eq. by rewrite Ho.
  - intros Hwf op. destruct (exec_keepsOrders op db Hwf) as (_ & Hitems & _).
    apply Hitems. destruct Hwf as [Hord _]. by eapply Hord.
Qed.

(** The delivered order is set to each of the five statuses in turn. *)
Lemma updateOrderStatus_unchecked_witness :
  Forall (λ status,
            ∃ db1 view,
              updateOrderStatus 1700000600000 100 status deliveredDB =
                (db1, inr (Some view)) ∧
              Order.status (v_order view) = status ∧
              v_items view = [OrderItem.mk 101 100 1 2 1000 2000])
         [PENDING; CONFIRMED; SHIPPED; DELIVERED; CANCELLED].
Proof.
  repeat constructor;
    match goal with
    | |- ∃ db1 view, updateOrderStatus ?n ?oid ?s ?db = _ ∧ _ =>
        destruct (updateOrderStatus_unchecked n oid s db _ eq_refl)
          as [(db1 & view & Hrun & _ & Hs & _ & Hitems & _) _];
        exists db1, view; split; [exact Hrun|]; split; [exact Hs|];
        rewrite Hitems; reflexivity
    end.
Defined.

(** C10.  [updateOrderStatus] changes nothing but the [status] and
    [updatedAt] of the order with the given id: that order keeps its
    [orderNumber], [userId], [totalAmount], [shippingCost], [taxAmount],
    shipping address fields, [notes], [createdAt] and items; every other
    order, every order item and every product (so every stock) is as
    before; and when no order has the id nothing changes at all. *)
Theorem updateOrderStatus_frame now orderId status db :
  let db1 := (updateOrderStatus now orderId status db).1 in
  products db1 = products db ∧
  orderItems db1 = orderItems db ∧
  nextId db1 = nextId db ∧
  (∀ pid, stockOf pid db1 = stockOf pid db) ∧
  (∀ oid, itemsOf oid db1 = itemsOf oid db) ∧
  (∀ oid, oid ≠ orderId → orders db1 !! oid = orders db !! oid) ∧
  (∀ o, orders db !! orderId = Some o →
        ∃ o', orders db1 !! orderId = Some o' ∧
              Order.status o' = status ∧
              Order.updatedAt o' = now ∧
              sameButStatus o o') ∧
  (orders db !! orderId = None → db1 = db).
Proof.
  rewrite updateOrderStatus_run. simpl. split_and!; try done.
  - intros oid Hne. by rewrite lookup_alter_ne.
  - intros o Ho. rewrite lookup_alter_eq, Ho. simpl. eexists. split; [done|].
    split_and!; [done..|]. apply sameButStatus_setStatus.
  - intros Hnone. unfold afterStatus. destruct db as [ps os its n].
    simpl in *. f_equal. apply map_eq. intros k. rewrite lookup_alter.
    case_decide; [subst; by rewrite Hnone|done].
Qed.

(** The delivered order set to [SHIPPED]: only status and timestamp move. *)
Lemma updateOrderStatus_frame_witness :
  let db1 := (updateOrderStatus 1700000600000 100 SHIPPED deliveredDB).1 in
  orders db1 !! 100%nat =
    Some (Order.mk "ORD-1700000000000-k3j9x0a1b" 9 SHIPPED 2000
            0 0 None None None None None 1700000000123 1700000600000) ∧
  stockOf 1 db1 = Some 5 ∧
  (updateOrderStatus 1700000600000 55 SHIPPED deliveredDB).1 = deliveredDB.
Proof.
  destruct (updateOrderStatus_frame 1700000600000 100 SHIPPED deliveredDB)
    as (_ & _ & _ & Hstock & _ & _ & Hrow & _).
  destruct (updateOrderStatus_frame 1700000600000 55 SHIPPED deliveredDB)
    as (_ & _ & _ & _ & _ & _ & _ & Hnone).
  simpl. split; [reflexivity|]. split; [rewrite Hstock; reflexivity|].
  apply Hnone. reflexivity.
Defined.

(** ** Listings (C9) *)

#[global] Instance newestFirst_total : Total newestFirst.
Proof. intros a b. unfold newestFirst. lia. Qed.

#[global] Instance newestFirst_trans : Transitive newestFirst.
Proof. intros a b c. unfold newestFirst. lia. Qed.

Lemma ceilDiv_bounds a b : 0 < b → b * (ceilDiv a b - 1) < a ≤ b * ceilDiv a b.
Proof.
  intros Hb. unfold ceilDiv.
  pose proof (Z.div_mod (- a) b) as Hdiv.
  pose proof (Z.mod_pos_bound (- a) b Hb) as Hmod. nia.
Qed.

Section Listing.

Context (P : Order.t → Prop) `{!∀ o, Decision (P o)}.

Lemma queryRows_perm db :
  queryRows P db ≡ₚ filter (λ kv, P kv.2) (map_to_list (orders db)).
Proof. apply merge_sort_Permutation. Qed.

Lemma queryRows_elem db k o :
  (k, o) ∈ queryRows P db ↔ orders db !! k = Some o ∧ P o.
Proof.
  rewrite queryRows_perm, list_elem_of_filter, elem_of_map_to_list. simpl.
  tauto.
Qed.

Lemma queryRows_NoDup db : NoDup (queryRows P db).
Proof. rewrite queryRows_perm. apply NoDup_filter, NoDup_map_to_list. Qed.

Lemma queryRows_sorted db : StronglySorted newestFirst (queryRows P db).
Proof. apply Sorted_StronglySorted; [apply _|]. apply Sorted_merge_sort, _. Qed.

Lemma window_sorted {A} (R : relation A) (l : list A) n m :
  StronglySorted R l → StronglySorted R (take n (drop m l)).
Proof.
  intros Hl. rewrite <- (take_drop m l) in Hl.
  apply StronglySorted_app_1_r in Hl.
  rewrite <- (take_drop n (drop m l)) in Hl.
  by apply StronglySorted_app_1_l in Hl.
Qed.

Lemma runPagedQuery_page page limit db :
  1 ≤ page → 1 ≤ limit →
  ∃ pg, runPagedQuery P page limit db = (db, inr pg) ∧
        isPageOf P page limit db pg.
Proof.
  intros Hpage Hlimit. eexists. split; [reflexivity|].
  exists (queryRows P db). simpl.
  assert (length (take (Z.to_nat limit)
                    (drop (Z.to_nat ((page - 1) * limit)) (queryRows P db))) =
          Z.to_nat limit `min`
            (length (queryRows P db) - Z.to_nat ((page - 1) * limit)))%nat
    as Hlen by by rewrite length_take, length_drop.
  split_and!; try done.
  - apply queryRows_elem.
  - apply queryRows_NoDup.
  - apply queryRows_sorted.
  - apply (StronglySorted_fmap _ newestFirst); [by intros [] []|].
    apply window_sorted, queryRows_sorted.
  - rewrite length_map, Hlen. lia.
  - rewrite length_map, Hlen. nia.
  - apply ceilDiv_bounds. lia.
  - apply ceilDiv_bounds. lia.
Qed.

End Listing.

(** C9.  For [page ≥ 1] and [limit ≥ 1], [getUserOrders] and [getAllOrders]
    return without touching the database; the orders returned are the
    window of at most [limit] orders starting at offset
    [(page - 1) * limit] of the matching orders (those of the user; all of
    them) sorted by [createdAt] descending; [total] is the number of
    matching orders and [totalPages] is the ceiling of [total / limit].  In
    particular with 25 matching orders and [limit = 10] there are 3 pages
    and page 3 holds the 5 remaining orders. *)
Theorem listings_paginate userId page limit db :
  1 ≤ page → 1 ≤ limit →
  (∃ pg, getUserOrders userId page limit db = (db, inr pg) ∧
         isPageOf (λ o, Order.userId o = userId) page limit db pg ∧
         (pg_total pg = 25 → limit = 10 →
          pg_totalPages pg = 3 ∧
          (page = 3 → length (pg_orders pg) = 5%nat))) ∧
  (∃ pg, getAllOrders page limit db = (db, inr pg) ∧
         isPageOf (λ _, True) page limit db pg ∧
         (pg_total pg = 25 → limit = 10 →
          pg_totalPages pg = 3 ∧
          (page = 3 → length (pg_orders pg) = 5%nat))).
Proof.
  intros Hpage Hlimit. split.
  - destruct (runPagedQuery_page (λ o, Order.userId o = userId)
                page limit db Hpage Hlimit) as (pg & Hrun & Hpg).
    exists pg. split_and!; [done..|].
    destruct Hpg as (rows & _ & _ & _ & _ & _ & _ & Hlen & _ & _ & _ & Hceil).
    intros Htotal ->. split; lia.
  - destruct (runPagedQuery_page (λ _, True) page limit db Hpage Hlimit)
      as (pg & Hrun & Hpg).
    exists pg. split_and!; [done..|].
    destruct Hpg as (rows & _ & _ & _ & _ & _ & _ & Hlen & _ & _ & _ & Hceil).
    intros Htotal ->. split; lia.
Qed.

(** Twenty-five orders, ten per page, third page. *)
Lemma listings_paginate_witness :
  ∃ pg, getUserOrders 9 3 10 manyOrdersDB = (manyOrdersDB, inr pg) ∧
        pg_total pg = 25 ∧
        pg_totalPages pg = 3 ∧
        length (pg_orders pg) = 5%nat ∧
        map v_id (pg_orders pg) = [4; 3; 2; 1; 0]%nat.
Proof.
  destruct (listings_paginate 9 3 10 manyOrdersDB) as [(pg & Hrun & _ & Hex) _];
    [lia..|].
  exists pg. split; [exact Hrun|].
  assert (pg_total pg = 25) as Htotal.
  { vm_compute in Hrun. injection Hrun as <-. reflexivity. }
  destruct (Hex Htotal eq_refl) as [Hpages Hfive].
  split; [exact Htotal|]. split; [exact Hpages|]. split; [exact (Hfive eq_refl)|].
  vm_compute in Hrun. injection Hrun as <-. reflexivity.
Defined.

(** ** [createOrder] step by step, and two calls in flight (C3) *)

Section Steps.

Variable c : Call.

Lemma validateItems_cons item rest totalAmount ds db :
  validateItems (item :: rest) totalAmount ds db =
  match validateItems [item] totalAmount ds db with
  | (db', inl e) => (db', inl e)
  | (db', inr (totalAmount', ds')) => validateItems rest totalAmount' ds' db'
  end.
Proof.
  simpl. unfold bind, findProduct.
  destruct (products db !! productId item) as [p|]; [|done].
  destruct (negb (Product.isAvailable p)); [done|].
  by destruct (Product.stockQuantity p <? quantity item).
Qed.

Lemma runCreate_finished n r db :
  runCreate c n (Finished r) db = (db, Finished r).
Proof. induction n as [|n IH]; [done|]. simpl. apply IH. Qed.

Lemma runCreate_validate its totalAmount ds db n :
  runCreate c (length its + n) (AtValidate its totalAmount ds) db =
  match validateItems its totalAmount ds db with
  | (db', inl e) => (db', Finished (inl e))
  | (db', inr (totalAmount', ds')) =>
      runCreate c n (AtValidate [] totalAmount' ds') db'
  end.
Proof.
  revert totalAmount ds db. induction its as [|item rest IH]; intros t ds db.
  - done.
  - rewrite validateItems_cons. cbn [length Nat.add runCreate stepCreate].
    destruct (validateItems [item] t ds db) as [db' [e|[t' ds']]].
    + apply runCreate_finished.
    + apply IH.
Qed.

Lemma runCreate_decrement savedId its db n :
  runCreate c (length its + n) (AtDecrement savedId its) db =
  runCreate c n (AtDecrement savedId []) (decrementAll its db).1.
Proof.
  revert db. induction its as [|item rest IH]; intros db.
  - done.
  - cbn [length Nat.add runCreate stepCreate]. unfold decrementStock at 1.
    rewrite IH. by rewrite !decrementAll_run.
Qed.

(** A call run alone, step by step, ends as [createOrder] does. *)
Lemma runCreate_alone db :
  runCreate c (2 * length (items (c_data c)) + 5) (startCreate c) db =
  (let '(db', r) := createOrder (c_env c) (c_userId c) (c_data c) db in
   (db', Finished r)).
Proof.
  replace (2 * length (items (c_data c)) + 5)%nat
    with (length (items (c_data c)) +
          S (S (S (length (items (c_data c)) + 2))))%nat by lia.
  unfold startCreate. rewrite runCreate_validate.
  unfold createOrder. unfold bind at 1.
  destruct (validateItems (items (c_data c)) 0 [] db) as [db0 [e|[t ds]]];
    [done|].
  cbn [runCreate stepCreate fst snd]. unfold bind at 1.
  destruct (saveOrder (newOrder (c_env c) (c_userId c) (c_data c) t) db0)
    as [db1 [e|savedId]]; [apply runCreate_finished|].
  cbn [runCreate stepCreate]. unfold bind at 1. unfold saveOrderItems at 1 2.
  rewrite runCreate_decrement. unfold bind at 1.
  rewrite decrementAll_run. cbn [runCreate stepCreate fst].
  unfold bind, getOrderById.
  by destruct (_ <$> _).
Qed.

End Steps.

(** C3, on the code.  Five keyboards are in stock and two calls ask for three
    each.  Run one after the other, the first call returns its order and the
    second throws [InsufficientStock] with two left.  Taking turns at every
    [await], both calls pass the stock check before either decrements, both
    return an order, and the stock ends at minus one: the check and the
    decrement are two separate repository calls. *)
Theorem createOrder_interleaved_oversell :
  stockOf 1 sampleDB = Some 5 ∧
  (let '(db', p1, p2) :=
     runConcurrently firstCall secondCall oneAfterTheOther
       (startCreate firstCall) (startCreate secondCall) sampleDB in
   succeeded p1 = true ∧
   p2 = Finished (inl (InsufficientStock "Keyboard" 2)) ∧
   stockOf 1 db' = Some 2) ∧
  (let '(db', p1, p2) :=
     runConcurrently firstCall secondCall takingTurns
       (startCreate firstCall) (startCreate secondCall) sampleDB in
   succeeded p1 = true ∧
   succeeded p2 = true ∧
   stockOf 1 db' = Some (-1)).
Proof. vm_compute. by repeat split. Qed.

(** ** Requests the route does not validate (C8) *)

(** C8, on the code.  [createOrder] does not reject a request with no items,
    nor an item of quantity zero or less: it stores an order without items
    and total zero; it stores an order for zero keyboards; and for minus two
    keyboards it stores an order of total minus 20.00 and raises the stock
    from five to seven. *)
Theorem createOrder_unvalidated_requests :
  (∃ db1 view,
     createOrder sampleEnv 9 (request []) sampleDB = (db1, inr view) ∧
     v_items view = [] ∧
     Order.totalAmount (v_order view) = 0 ∧
     orders db1 !! v_id view = Some (v_order view)) ∧
  (∃ db1 view,
     createOrder sampleEnv 9 (request [mkItem 1 0]) sampleDB =
       (db1, inr view) ∧
     map OrderItem.quantity (v_items view) = [0] ∧
     orders db1 !! v_id view = Some (v_order view)) ∧
  (∃ db1 view,
     createOrder sampleEnv 9 (request [mkItem 1 (-2)]) sampleDB =
       (db1, inr view) ∧
     map OrderItem.quantity (v_items view) = [-2] ∧
     Order.totalAmount (v_order view) = -2000 ∧
     stockOf 1 db1 = Some 7).
Proof.
  split_and!; eexists _, _; (split; [reflexivity|]); by repeat split.
Qed.

(** * Further properties of the order service *)

(** ** What [createOrder] returns and what it leaves alone *)

Lemma insertItems_length oid first ds :
  length (insertItems oid first ds) = length ds.
Proof.
  revert first. induction ds as [|d ds IH]; intros first; simpl; [done|].
  by rewrite IH.
Qed.

(** X1.  The order a [createOrder] returns is the row it stored: a new id no
    earlier order has, status [PENDING], the caller's user id, the order
    number built from the clock and the random suffix, the shipping fields
    and notes of the request, zero shipping cost and tax, one item per item
    of the request, all carrying the new id; and reading the order back by
    that id returns the same object. *)
Theorem createOrder_returns_stored env userId data db db1 view :
  wellFormed db →
  createOrder env userId data db = (db1, inr view) →
  orders db !! v_id view = None ∧
  getOrderById (v_id view) db1 = (db1, inr (Some view)) ∧
  Order.status (v_order view) = PENDING ∧
  Order.userId (v_order view) = userId ∧
  Order.orderNumber (v_order view) =
    "ORD-" +:+ pretty (dateNow env) +:+ "-" +:+ randomSuffix env ∧
  Order.shippingAddress (v_order view) = r_shippingAddress data ∧
  Order.shippingCity (v_order view) = r_shippingCity data ∧
  Order.shippingPostalCode (v_order view) = r_shippingPostalCode data ∧
  Order.shippingCountry (v_order view) = r_shippingCountry data ∧
  Order.notes (v_order view) = r_notes data ∧
  Order.shippingCost (v_order view) = 0 ∧
  Order.taxAmount (v_order view) = 0 ∧
  length (v_items view) = length (items data) ∧
  Forall (λ it, OrderItem.orderId it = v_id view) (v_items view).
Proof.
  intros Hwf Hrun.
  destruct (createOrder_cases env userId data db)
    as [(e & _ & Hc)|[(_ & Hc)|(new & Hnew & _ & Hc)]];
    simpl in Hc; rewrite Hc in Hrun; simplify_eq.
  simpl. rewrite itemsOf_afterCreate_new by done.
  split.
  { destruct (orders db !! nextId db) as [o|] eqn:Ho; [|done].
    destruct Hwf as [Hord _]. specialize (Hord _ _ Ho). lia. }
  split.
  { unfold getOrderById. simpl. rewrite lookup_insert_eq. simpl.
    unfold viewOf. by rewrite itemsOf_afterCreate_new. }
  split_and!; try done.
  - rewrite insertItems_length. symmetry. by eapply Forall2_length.
  - apply insertItems_orderId.
Qed.

Lemma createOrder_returns_stored_witness :
  ∃ db1 view,
    createOrder sampleEnv 9 (request [mkItem 1 2; mkItem 2 1]) sampleDB =
      (db1, inr view) ∧
    v_id view = 100%nat ∧
    Order.orderNumber (v_order view) = "ORD-1700000000000-k3j9x0a1b" ∧
    getOrderById 100 db1 = (db1, inr (Some view)).
Proof.
  eexists _, _. split; [reflexivity|].
  destruct (createOrder_returns_stored sampleEnv 9
              (request [mkItem 1 2; mkItem 2 1]) sampleDB _ _
              (wellFormed_initial sampleProducts 100) eq_refl)
    as (_ & Hget & _ & _ & Hnumber & _).
  split; [reflexivity|]. split; [exact Hnumber|exact Hget].
Defined.

(** X2.  A [createOrder] that returns does not touch the orders stored
    before it: reading any other order id gives what it gave before, row and
    items alike. *)
Theorem createOrder_keeps_other_orders env userId data db db1 view oid :
  createOrder env userId data db = (db1, inr view) →
  oid ≠ v_id view →
  (getOrderById oid db1).2 = (getOrderById oid db).2.
Proof.
  intros Hrun Hne.
  destruct (createOrder_cases env userId data db)
    as [(e & _ & Hc)|[(_ & Hc)|(new & Hnew & _ & Hc)]];
    simpl in Hc; rewrite Hc in Hrun; simplify_eq.
  simpl in *. rewrite lookup_insert_ne by done. unfold viewOf.
  by rewrite itemsOf_afterCreate_old.
Qed.

Lemma createOrder_keeps_other_orders_witness :
  ∃ db1 view,
    createOrder (mkEnv 1700000700000 "m4n5b6v7c" 1700000700100) 12
      (request [mkItem 2 1]) deliveredDB = (db1, inr view) ∧
    (getOrderById 100 db1).2 = (getOrderById 100 deliveredDB).2.
Proof.
  eexists _, _. split; [reflexivity|].
  apply (createOrder_keeps_other_orders
           (mkEnv 1700000700000 "m4n5b6v7c" 1700000700100) 12
           (request [mkItem 2 1]) deliveredDB _ _ 100%nat eq_refl).
  simpl. lia.
Defined.

(** X3.  [createOrder] never throws "Failed to retrieve created order": the
    order it has just saved is always found when read back. *)
Theorem createOrder_always_retrieves env userId data db db1 :
  createOrder env userId data db ≠ (db1, inl FailedToRetrieve).
Proof.
  intros Hrun.
  destruct (createOrder_cases env userId data db)
    as [(e & He & Hc)|[(_ & Hc)|(new & Hnew & _ & Hc)]];
    simpl in Hc; rewrite Hc in Hrun; by simplify_eq.
Qed.

(** ** Creating, cancelling and creating again *)

Lemma createOrder_orderable env userId data db db1 view :
  createOrder env userId data db = (db1, inr view) →
  Forall (orderable db) (items data).
Proof.
  intros Hrun.
  destruct (validateItems (items data) 0 [] db) as [db' [e|[t ds]]] eqn:Hval.
  - pose proof (validateItems_reads db (items data) 0 []) as Hdb.
    rewrite Hval in Hdb. simpl in Hdb. subst db'.
    rewrite (createOrder_rejected _ _ _ _ _ Hval) in Hrun. by simplify_eq.
  - by eapply validateItems_inversion.
Qed.

Lemma recordedOf_insertItems db its ds oid first pid :
  Forall2 (draftOf db) its ds →
  recordedOf pid (insertItems oid first ds) = requestedOf pid its.
Proof.
  intros Hds. revert first.
  induction Hds as [|item d its ds (p & _ & Hpid & Hq & _) _ IH];
    intros first; [done|].
  specialize (IH (S first)). unfold recordedOf, requestedOf in *. simpl.
  rewrite !filter_cons. simpl. rewrite Hpid.
  destruct (decide (productId item = pid)); simpl; by rewrite IH, ?Hq.
Qed.

(** X4.  Cancelling an order right after creating it puts every product back
    as it was before the creation, and returns the order with status
    [CANCELLED] and the items it was created with. *)
Theorem createOrder_cancelOrder_round_trip env userId data now db db1 view :
  wellFormed db →
  createOrder env userId data db = (db1, inr view) →
  ∃ db2 cancelled,
    cancelOrder now (v_id view) db1 = (db2, inr (Some cancelled)) ∧
    products db2 = products db ∧
    Order.status (v_order cancelled) = CANCELLED ∧
    v_items cancelled = v_items view ∧
    sameButStatus (v_order view) (v_order cancelled).
Proof.
  intros Hwf Hrun.
  destruct (createOrder_cases env userId data db)
    as [(e & _ & Hc)|[(_ & Hc)|(new & Hnew & _ & Hc)]];
    simpl in Hc; rewrite Hc in Hrun; simplify_eq.
  set (total := sumZ (map OrderItem.d_totalPrice new)).
  set (db1 := afterCreate env userId data total new db).
  assert (orders db1 !! nextId db = Some (newOrder env userId data total))
    as Hrow by (subst db1; simpl; by rewrite lookup_insert_eq).
  eexists _, _. simpl. split.
  { by apply (cancelOrder_done now (nextId db) db1 _ Hrow). }
  split; [|split; [done|split; [done|apply sameButStatus_setStatus]]].
  simpl. apply map_eq. intros pid.
  rewrite restored_lookup. subst db1. rewrite itemsOf_afterCreate_new by done.
  simpl. rewrite decremented_lookup.
  rewrite (recordedOf_insertItems db (items data)) by done.
  destruct (products db !! pid) as [p|]; simpl; [|done].
  rewrite addStock_addStock. f_equal.
  replace (- requestedOf pid (items data) + requestedOf pid (items data))
    with 0 by lia.
  apply addStock_zero.
Qed.

Lemma createOrder_cancelOrder_round_trip_witness :
  ∃ db1 view db2 cancelled,
    createOrder sampleEnv 9 (request [mkItem 1 2; mkItem 2 1; mkItem 1 1])
      sampleDB = (db1, inr view) ∧
    stockOf 1 db1 = Some 2 ∧
    cancelOrder 1700000800000 (v_id view) db1 = (db2, inr (Some cancelled)) ∧
    products db2 = sampleProducts.
Proof.
  eexists _, _.
  destruct (createOrder_cancelOrder_round_trip sampleEnv 9
              (request [mkItem 1 2; mkItem 2 1; mkItem 1 1]) 1700000800000
              sampleDB _ _ (wellFormed_initial sampleProducts 100) eq_refl)
    as (db2 & cancelled & Hcancel & Hproducts & _).
  exists db2, cancelled. split; [reflexivity|]. split; [reflexivity|].
  split; [exact Hcancel|exact Hproducts].
Defined.

(** X5.  A cancelled order that an administrator sets back to a status other
    than [CANCELLED] or [DELIVERED] can be cancelled again, and the second
    cancellation restores the stock a second time: every product ends with
    its original stock plus twice the quantities recorded for it on the
    order. *)
Theorem cancelOrder_reopened_restores_twice n1 n2 n3 orderId status db o :
  orders db !! orderId = Some o →
  Order.status o ≠ CANCELLED → Order.status o ≠ DELIVERED →
  status ≠ CANCELLED → status ≠ DELIVERED →
  ∃ db3 view,
    cancelOrder n3 orderId
      (updateOrderStatus n2 orderId status (cancelOrder n1 orderId db).1).1 =
      (db3, inr (Some view)) ∧
    Order.status (v_order view) = CANCELLED ∧
    ∀ pid, stockOf pid db3 =
           (λ before, before + 2 * recordedOf pid (itemsOf orderId db))
             <$> stockOf pid db.
Proof.
  intros Ho Hc Hd Hsc Hsd.
  rewrite (cancelOrder_done n1 orderId db o) by done. cbn [fst].
  rewrite updateOrderStatus_run. cbn [fst].
  set (db2 := afterStatus n2 orderId status (afterCancel n1 orderId db)).
  assert (orders db2 !! orderId =
          Some (Order.setStatus status n2 (Order.setStatus CANCELLED n1 o)))
    as Hrow.
  { subst db2. simpl. rewrite !lookup_alter_eq. by rewrite Ho. }
  eexists _, _. split.
  { by apply (cancelOrder_done n3 orderId db2 _ Hrow). }
  split; [done|]. intros pid. rewrite afterCancel_stock.
  assert (stockOf pid db2 = stockOf pid (afterCancel n1 orderId db)) as -> by done.
  assert (itemsOf orderId db2 = itemsOf orderId db) as -> by done.
  rewrite afterCancel_stock.
  destruct (stockOf pid db) as [before|]; simpl; [|done]. f_equal. lia.
Qed.

Lemma cancelOrder_reopened_restores_twice_witness :
  ∃ db0 db3 view,
    (createOrder sampleEnv 9 (request [mkItem 1 2]) sampleDB).1 = db0 ∧
    stockOf 1 db0 = Some 3 ∧
    cancelOrder 3 100
      (updateOrderStatus 2 100 PENDING (cancelOrder 1 100 db0).1).1 =
      (db3, inr (Some view)) ∧
    stockOf 1 db3 = Some 7.
Proof.
  eexists _.
  destruct (cancelOrder_reopened_restores_twice 1 2 3 100 PENDING
    (createOrder sampleEnv 9 (request [mkItem 1 2]) sampleDB).1
    (newOrder sampleEnv 9 (request [mkItem 1 2]) 2000))
    as (db3 & view & Hrun & _ & Hstock); [reflexivity|discriminate..|].
  exists db3, view. split; [reflexivity|]. split; [reflexivity|].
  split; [exact Hrun|]. rewrite Hstock. reflexivity.
Defined.

Lemma createOrder_products env userId data db db1 view pid :
  createOrder env userId data db = (db1, inr view) →
  products db1 !! pid =
    Product.addStock (- requestedOf pid (items data)) <$> products db !! pid.
Proof.
  intros Hrun.
  destruct (createOrder_cases env userId data db)
    as [(e & _ & Hc)|[(_ & Hc)|(new & Hnew & _ & Hc)]];
    simpl in Hc; rewrite Hc in Hrun; simplify_eq.
  apply decremented_lookup.
Qed.

Lemma createOrder_stockOf env userId data db db1 view pid :
  createOrder env userId data db = (db1, inr view) →
  stockOf pid db1 =
    (λ before, before - requestedOf pid (items data)) <$> stockOf pid db.
Proof.
  intros Hrun. unfold stockOf.
  rewrite (createOrder_products _ _ _ _ _ _ pid Hrun).
  by destruct (products db !! pid) as [p|].
Qed.

(** X6.  A [createOrder] that returns for a request naming each product at
    most once leaves no stock negative that was not negative before: the
    stock of a named product ends at its earlier value less the quantity,
    which the stock check has bounded. *)
Theorem createOrder_stock_stays_nonnegative env userId data db db1 view :
  createOrder env userId data db = (db1, inr view) →
  NoDup (map productId (items data)) →
  ∀ pid before,
    stockOf pid db = Some before → 0 ≤ before →
    ∃ after, stockOf pid db1 = Some after ∧ 0 ≤ after.
Proof.
  intros Hrun Hnodup pid before Hbefore Hpos.
  rewrite (createOrder_stockOf _ _ _ _ _ _ pid Hrun), Hbefore. simpl. eexists. split; [done|].
  destruct (decide (pid ∈ map productId (items data))) as [Hin|Hnot].
  - apply list_elem_of_fmap in Hin as (item & -> & Hin).
    rewrite requestedOf_single by done.
    pose proof (createOrder_orderable _ _ _ _ _ _ Hrun) as Hall.
    rewrite Forall_forall in Hall. destruct (Hall item Hin) as (p & Hp & _ & Hq).
    unfold stockOf in Hbefore. rewrite Hp in Hbefore. simpl in Hbefore.
    simplify_eq. lia.
  - rewrite requestedOf_unreferenced by done. lia.
Qed.

Lemma createOrder_stock_stays_nonnegative_witness :
  ∃ db1 view,
    createOrder sampleEnv 9 (request [mkItem 1 5; mkItem 2 7]) sampleDB =
      (db1, inr view) ∧
    (∃ after, stockOf 1 db1 = Some after ∧ 0 ≤ after) ∧
    stockOf 1 db1 = Some 0.
Proof.
  eexists _, _. split; [reflexivity|]. split; [|reflexivity].
  apply (createOrder_stock_stays_nonnegative sampleEnv 9
           (request [mkItem 1 5; mkItem 2 7]) sampleDB _ _ eq_refl) with 5.
  - simpl. apply NoDup_cons. split; [|apply NoDup_singleton].
    rewrite list_elem_of_singleton. lia.
  - reflexivity.
  - lia.
Defined.

(** X7.  Two calls for the same product, one after the other: when the first
    returns and the two quantities together exceed the stock, the second
    throws [InsufficientStock] carrying what the first left, which is not
    negative, and changes nothing. *)
Theorem createOrder_sequential_guard env1 env2 user1 user2 data1 data2
    pid q1 q2 p db db1 view :
  items data1 = [mkItem pid q1] →
  items data2 = [mkItem pid q2] →
  products db !! pid = Some p →
  createOrder env1 user1 data1 db = (db1, inr view) →
  Product.stockQuantity p < q1 + q2 →
  createOrder env2 user2 data2 db1 =
    (db1, inl (InsufficientStock (Product.name p)
                                 (Product.stockQuantity p - q1))) ∧
  0 ≤ Product.stockQuantity p - q1.
Proof.
  intros Hitems1 Hitems2 Hp Hrun Hlt.
  pose proof (createOrder_orderable _ _ _ _ _ _ Hrun) as Hall.
  rewrite Hitems1 in Hall. apply Forall_cons in Hall as [(p' & Hp' & Ha & Hq) _].
  simpl in *. simplify_eq.
  pose proof (createOrder_products _ _ _ _ _ _ pid Hrun) as Hlookup.
  rewrite Hitems1, Hp in Hlookup.
  unfold requestedOf in Hlookup. simpl in Hlookup.
  rewrite filter_cons, decide_True in Hlookup by done. simpl in Hlookup.
  split; [|lia]. apply createOrder_rejected. rewrite Hitems2.
  rewrite (validateItems_insufficient db1 (mkItem pid q2) [] 0 []
             (Product.addStock (- (q1 + 0)) p)); simpl.
  - do 3 f_equal. lia.
  - done.
  - done.
  - lia.
Qed.

Lemma createOrder_sequential_guard_witness :
  ∃ db1 view,
    createOrder sampleEnv 9 (request [mkItem 1 3]) sampleDB = (db1, inr view) ∧
    createOrder (mkEnv 1700000000007 "q8w2e5r7t" 1700000000130) 12
      (request [mkItem 1 3]) db1 =
      (db1, inl (InsufficientStock "Keyboard" 2)).
Proof.
  eexists _, _. split; [reflexivity|].
  refine (proj1 (createOrder_sequential_guard sampleEnv
    (mkEnv 1700000000007 "q8w2e5r7t" 1700000000130) 9 12
    (request [mkItem 1 3]) (request [mkItem 1 3]) 1 3 3
    (Product.mk "Keyboard" 1000 true 5) sampleDB _ _
    eq_refl eq_refl eq_refl eq_refl _)).
  simpl. lia.
Defined.

(** ** Listings: whose orders, and all of them *)

Section ListingMore.

Context (P : Order.t → Prop) `{!∀ o, Decision (P o)}.

Lemma queryRows_NoDup_ids db : NoDup (queryRows P db).*1.
Proof.
  rewrite queryRows_perm.
  apply (sublist_NoDup _ (map_to_list (orders db)).*1).
  - apply NoDup_fst_map_to_list.
  - apply fmap_sublist, sublist_filter.
Qed.


Lemma windows_concat {A} (l : list A) (size n : nat) :
  concat (map (λ i : nat, take size (drop (i * size) l)) (seq 0 n)) =
  take (n * size) l.
Proof.
  induction n as [|n IH]; [done|].
  rewrite seq_S, map_app, concat_app, IH. simpl. rewrite app_nil_r.
  rewrite take_take_drop. f_equal. lia.
Qed.

Lemma runPagedQuery_cover limit db :
  1 ≤ limit →
  firstPages (λ page, runPagedQuery P page limit)
    (Z.to_nat (ceilDiv (Z.of_nat (length (queryRows P db))) limit)) db =
  map (λ kv, viewOf db kv.1 kv.2) (queryRows P db).
Proof.
  intros Hlimit. unfold firstPages, pageOrders, runPagedQuery. simpl.
  set (rows := queryRows P db).
  set (n := Z.to_nat (ceilDiv (Z.of_nat (length rows)) limit)).
  rewrite (map_ext _
    (λ i : nat, map (λ kv, viewOf db kv.1 kv.2)
                  (take (Z.to_nat limit) (drop (i * Z.to_nat limit) rows)))).
  2:{ intros i. do 3 f_equal. nia. }
  rewrite <- (map_map (λ i : nat, take (Z.to_nat limit)
                                  (drop (i * Z.to_nat limit) rows))
                      (map (λ kv, viewOf db kv.1 kv.2))).
  rewrite <- concat_map, windows_concat. f_equal. apply take_ge.
  pose proof (ceilDiv_bounds (Z.of_nat (length rows)) limit) as Hceil.
  subst n. nia.
Qed.

Lemma runPagedQuery_beyond page limit db :
  1 ≤ limit →
  ceilDiv (Z.of_nat (length (queryRows P db))) limit < page →
  pageOrders (runPagedQuery P page limit db) = [].
Proof.
  intros Hlimit Hpage. unfold pageOrders, runPagedQuery. simpl.
  rewrite drop_ge; [by rewrite take_nil|].
  pose proof (ceilDiv_bounds (Z.of_nat (length (queryRows P db))) limit).
  nia.
Qed.

End ListingMore.



(** X9.  For [limit ≥ 1], reading pages 1 to [totalPages] of a listing one
    after the other returns every matching order exactly once, newest first:
    the pages put end to end hold [total] orders with pairwise different
    ids, and an order is among them exactly when it is stored (and, for
    [getUserOrders], belongs to the user).  Any page after [totalPages] is
    empty. *)
Theorem listings_pages_cover userId limit db :
  1 ≤ limit →
  (∃ pg,
     getUserOrders userId 1 limit db = (db, inr pg) ∧
     let all := firstPages (λ page, getUserOrders userId page limit)
                  (Z.to_nat (pg_totalPages pg)) db in
     Z.of_nat (length all) = pg_total pg ∧
     NoDup (map v_id all) ∧
     StronglySorted
       (λ a b, Order.createdAt (v_order b) ≤ Order.createdAt (v_order a))
       all ∧
     (∀ oid o, viewOf db oid o ∈ all ↔
               orders db !! oid = Some o ∧ Order.userId o = userId) ∧
     (∀ page, pg_totalPages pg < page →
              pageOrders (getUserOrders userId page limit db) = [])) ∧
  (∃ pg,
     getAllOrders 1 limit db = (db, inr pg) ∧
     let all := firstPages (λ page, getAllOrders page limit)
                  (Z.to_nat (pg_totalPages pg)) db in
     Z.of_nat (length all) = pg_total pg ∧
     NoDup (map v_id all) ∧
     StronglySorted
       (λ a b, Order.createdAt (v_order b) ≤ Order.createdAt (v_order a))
       all ∧
     (∀ oid o, viewOf db oid o ∈ all ↔ orders db !! oid = Some o) ∧
     (∀ page, pg_totalPages pg < page →
              pageOrders (getAllOrders page limit db) = [])).
Proof.
  intros Hlimit.
  assert (∀ (P : Order.t → Prop) `{!∀ o, Decision (P o)},
    ∃ pg,
      runPagedQuery P 1 limit db = (db, inr pg) ∧
      let all := firstPages (λ page, runPagedQuery P page limit)
                   (Z.to_nat (pg_totalPages pg)) db in
      Z.of_nat (length all) = pg_total pg ∧
      NoDup (map v_id all) ∧
      StronglySorted
        (λ a b, Order.createdAt (v_order b) ≤ Order.createdAt (v_order a))
        all ∧
      (∀ oid o, viewOf db oid o ∈ all ↔ orders db !! oid = Some o ∧ P o) ∧
      (∀ page, pg_totalPages pg < page →
               pageOrders (runPagedQuery P page limit db) = [])) as Hgen.
  { intros P HP. eexists. split; [reflexivity|]. simpl.
    rewrite runPagedQuery_cover by done. split_and!.
    - by rewrite length_map.
    - rewrite map_map. simpl. apply queryRows_NoDup_ids.
    - apply (StronglySorted_fmap _ newestFirst); [by intros [] []|].
      apply queryRows_sorted.
    - intros oid o. rewrite <- (queryRows_elem P). split.
      + intros ([k o'] & Heq & Hin)%list_elem_of_fmap.
        unfold viewOf in Heq. by simplify_eq.
      + intros Hin. apply list_elem_of_fmap. by exists (oid, o).
    - intros page Hpage. by apply runPagedQuery_beyond. }
  split.
  - apply (Hgen (λ o, Order.userId o = userId) _).
  - destruct (Hgen (λ _, True) _) as (pg & Hrun & Hlen & Hids & Hsorted & Hin & Hpast).
    exists pg. split; [exact Hrun|]. split; [exact Hlen|].
    split; [exact Hids|]. split; [exact Hsorted|]. split; [|exact Hpast].
    intros oid o. specialize (Hin oid o). unfold getAllOrders. tauto.
Qed.

Lemma listings_pages_cover_witness :
  ∃ pg,
    getUserOrders 9 1 10 manyOrdersDB = (manyOrdersDB, inr pg) ∧
    pg_totalPages pg = 3 ∧
    length (firstPages (λ page, getUserOrders 9 page 10) 3 manyOrdersDB) =
      25%nat ∧
    pageOrders (getUserOrders 9 4 10 manyOrdersDB) = [].
Proof.
  destruct (listings_pages_cover 9 10 manyOrdersDB)
    as [(pg & Hrun & Hlen & _ & _ & _ & Hpast) _]; [lia|].
  exists pg. split; [exact Hrun|].
  assert (pg_totalPages pg = 3) as Hpages.
  { vm_compute in Hrun. injection Hrun as <-. reflexivity. }
  split; [exact Hpages|]. split; [reflexivity|].
  apply Hpast. rewrite Hpages. lia.
Defined.

(** ** The race between two calls, for any stock *)




(** * The HTTP layer *)

(** ** Tokens: header, store, middleware *)

Lemma splitOn_whole sep s : hasChar sep s = false → splitOn sep s = [s].
Proof.
  induction s as [|c rest IH]; [done|]. simpl.
  intros [Hc Hrest]%orb_false_elim. apply bool_decide_eq_false in Hc.
  rewrite decide_False by done. by rewrite IH.
Qed.

Lemma splitOn_first sep a b :
  hasChar sep a = false →
  splitOn sep (a +:+ String sep b) = a :: splitOn sep b.
Proof.
  induction a as [|c rest IH]; simpl.
  - intros _. by rewrite decide_True.
  - intros [Hc Hrest]%orb_false_elim. apply bool_decide_eq_false in Hc.
    rewrite decide_False by done. by rewrite IH.
Qed.

Lemma tokenOf_scheme scheme token :
  hasChar Ascii.Space scheme = false →
  tokenShaped token →
  tokenOf (Some (scheme +:+ " " +:+ token)) = Some token.
Proof.
  intros Hscheme [Hne Htoken]. unfold tokenOf.
  change (" " +:+ token) with (String Ascii.Space token).
  rewrite splitOn_first by done. rewrite splitOn_whole by done. simpl.
  by rewrite decide_False.
Qed.

Lemma tokenKey_inj a b : tokenKey a = tokenKey b → a = b.
Proof. unfold tokenKey. simpl. by intros [=]. Qed.

(** X11.  The life of a token.  Once [storeTokenInRedis] has stored a user
    under a token, a request whose header is [Bearer <token>] passes
    [authenticateToken] as that user as long as [jwt.verify] accepts the
    token and fewer than 24 hours have passed; once more than 24 hours have
    passed it is refused whatever [jwt.verify] says; and after [logout] with
    that header it is refused at once, with 401 "Token expired or invalid"
    if [jwt.verify] still accepts the token and 403 "Invalid token" if
    not. *)
Theorem token_lifecycle jwtValid stored now token user store :
  tokenShaped token →
  let header := Some ("Bearer " +:+ token) in
  let session := storeTokenInRedis stored token user store in
  (jwtValid token = true → now < stored + 86400 →
   authenticateToken jwtValid now session header = inr user) ∧
  (stored + 86400 < now →
   ∃ response,
     authenticateToken jwtValid now session header = inl response) ∧
  authenticateToken jwtValid now (logoutController header session).1 header =
    inl (if jwtValid token
         then mkResponse 401 (JsonMessage "Token expired or invalid")
         else mkResponse 403 (JsonMessage "Invalid token")).
Proof.
  intros Hshape header session.
  assert (tokenOf header = Some token) as Htoken.
  { by apply (tokenOf_scheme "Bearer"). }
  unfold authenticateToken, logoutController. rewrite Htoken.
  unfold getTokenFromRedis, invalidateToken. subst session.
  unfold storeTokenInRedis. cbn [fst]. rewrite lookup_insert_eq, lookup_delete_eq.
  split_and!.
  - intros -> Hnow.
    destruct (Z.ltb_spec now (stored + 24 * 60 * 60)); [done|lia].
  - intros Hnow. destruct (jwtValid token); [|by eexists].
    destruct (Z.ltb_spec now (stored + 24 * 60 * 60)); [lia|by eexists].
  - by destruct (jwtValid token).
Qed.

Lemma token_lifecycle_witness :
  let store := storeTokenInRedis 1000 "eyJhbGciOi.eyJ1c2Vy.c2lnbg"
                 (mkUser 9 "user") ∅ in
  authenticateToken (λ _, true) 5000 store
    (Some "Bearer eyJhbGciOi.eyJ1c2Vy.c2lnbg") = inr (mkUser 9 "user") ∧
  ∃ response,
    authenticateToken (λ _, true) 90000 store
      (Some "Bearer eyJhbGciOi.eyJ1c2Vy.c2lnbg") = inl response.
Proof.
  destruct (token_lifecycle (λ _, true) 1000 5000 "eyJhbGciOi.eyJ1c2Vy.c2lnbg"
              (mkUser 9 "user") ∅) as (Hin & _ & _); [by split|].
  destruct (token_lifecycle (λ _, true) 1000 90000 "eyJhbGciOi.eyJ1c2Vy.c2lnbg"
              (mkUser 9 "user") ∅) as (_ & Hout & _); [by split|].
  split; [apply Hin; [done|lia]|apply Hout; lia].
Defined.

(** X12.  [authenticateToken] reads the second space-separated word of the
    [Authorization] header and nothing else: whatever word stands in place
    of [Bearer], the verdict is the one for [Bearer <token>]; a header of
    one word, or with two spaces after the first word, is refused with 401
    "Access token required" whatever the store holds. *)
Theorem authenticateToken_ignores_scheme jwtValid now store scheme token :
  hasChar Ascii.Space scheme = false →
  tokenShaped token →
  authenticateToken jwtValid now store (Some (scheme +:+ " " +:+ token)) =
    authenticateToken jwtValid now store (Some ("Bearer " +:+ token)) ∧
  authenticateToken jwtValid now store (Some scheme) =
    inl (mkResponse 401 (JsonMessage "Access token required")) ∧
  authenticateToken jwtValid now store (Some (scheme +:+ "  " +:+ token)) =
    inl (mkResponse 401 (JsonMessage "Access token required")) ∧
  authenticateToken jwtValid now store None =
    inl (mkResponse 401 (JsonMessage "Access token required")).
Proof.
  intros Hscheme Hshape. unfold authenticateToken.
  assert (tokenOf (Some ("Bearer " +:+ token)) = Some token) as ->
    by by apply (tokenOf_scheme "Bearer").
  rewrite (tokenOf_scheme scheme) by done.
  split; [done|]. split; [|split; [|done]].
  - unfold tokenOf. by rewrite splitOn_whole.
  - unfold tokenOf.
    change ("  " +:+ token)
      with (String Ascii.Space (String Ascii.Space token)).
    by rewrite splitOn_first.
Qed.

Lemma authenticateToken_ignores_scheme_witness :
  let store := storeTokenInRedis 1000 "abc.def.ghi" (mkUser 9 "user") ∅ in
  authenticateToken (λ _, true) 5000 store (Some "Basic abc.def.ghi") =
    inr (mkUser 9 "user").
Proof.
  intros store.
  destruct (authenticateToken_ignores_scheme (λ _, true) 5000 store
              "Basic" "abc.def.ghi") as [Hsame _]; [done|by split|].
  exact (eq_trans Hsame eq_refl).
Defined.

(** ** The route table *)

Lemma dispatchIn_registered routes m path r params :
  dispatchIn routes m path = Some (r, params) →
  r ∈ routes ∧ rt_method r = m ∧ matchPath (rt_path r) path = Some params.
Proof.
  induction routes as [|r0 rest IH]; [done|]. simpl.
  destruct (decide (rt_method r0 = m)) as [Hm|Hm].
  - destruct (matchPath (rt_path r0) path) as [ps|] eqn:Hmatch.
    + intros [= <- <-]. split; [apply list_elem_of_here|done].
    + intros Hrest. destruct (IH Hrest) as (Hin & Hmeth & Hpath).
      split; [by apply list_elem_of_further|done].
  - intros Hrest. destruct (IH Hrest) as (Hin & Hmeth & Hpath).
    split; [by apply list_elem_of_further|done].
Qed.

Lemma dispatch_handler m path r params :
  dispatch m path = Some (r, params) → rt_handler r ≠ HGetAllOrders.
Proof.
  intros Hdispatch Hhandler.
  unfold dispatch, orderRoutes in Hdispatch.
  destruct m; cbn [dispatchIn rt_method rt_path decide] in Hdispatch;
    repeat (rewrite decide_True in Hdispatch by done)
    || (rewrite decide_False in Hdispatch by done).
  all: destruct path as [|s1 [|s2 [|s3 rest]]];
    cbn [matchPath fmap option_fmap option_map] in Hdispatch;
    repeat case_decide;
    cbn [matchPath fmap option_fmap option_map] in Hdispatch;
    try discriminate Hdispatch;
    try (injection Hdispatch as <- <-; discriminate Hhandler).
  all: subst; discriminate.
Qed.

(** X13.  No request is ever dispatched to [getAllOrders]: [GET /:id] is
    registered before [GET /all], so a [GET] of any one non-empty segment,
    [all] included, goes to [getOrder] with that segment as the order id. *)
Theorem getAllOrders_is_shadowed :
  (∀ m path r params,
     dispatch m path = Some (r, params) → rt_handler r ≠ HGetAllOrders) ∧
  (∀ seg, seg ≠ "" →
     dispatch GET [seg] =
       Some (mkRoute GET [Param "id"] false HGetOrder, [("id", seg)])) ∧
  mkRoute GET [Lit "all"] true HGetAllOrders ∈ orderRoutes.
Proof.
  split_and!.
  - apply dispatch_handler.
  - intros seg Hseg. unfold dispatch, orderRoutes. simpl.
    by rewrite decide_False.
  - unfold orderRoutes. set_solver.
Qed.

Lemma getAllOrders_is_shadowed_witness :
  dispatch GET ["all"] =
    Some (mkRoute GET [Param "id"] false HGetOrder, [("id", "all")]) ∧
  rt_handler (mkRoute GET [Param "id"] false HGetOrder) ≠ HGetAllOrders.
Proof.
  destruct getAllOrders_is_shadowed as (Hnever & Hone & _).
  split; [by apply Hone|].
  apply (Hnever GET ["all"] _ [("id", "all")]). by apply Hone.
Defined.

(** X14.  The orders router runs a handler only for a request whose header
    carries a token that [jwt.verify] accepts and under which the token store
    holds an unexpired user, and it is that stored user the handler sees;
    [updateOrderStatus] runs only for a user whose role is [admin]; and a
    request without such a token is answered before any route is looked
    at. *)
Theorem serveOrders_authenticates jwtValid now store m path authorization :
  (∀ handler params user,
     serveOrders jwtValid now store m path authorization =
       Run handler params user →
     (∃ token, tokenOf authorization = Some token ∧
               jwtValid token = true ∧
               getTokenFromRedis now token store = Some user) ∧
     (∃ r, dispatch m path = Some (r, params) ∧ rt_handler r = handler) ∧
     (handler = HUpdateOrderStatus → u_role user = "admin") ∧
     handler ≠ HGetAllOrders) ∧
  (∀ response,
     authenticateToken jwtValid now store authorization = inl response →
     serveOrders jwtValid now store m path authorization = Respond response ∧
     (statusCode response = 401%nat ∨ statusCode response = 403%nat)).
Proof.
  split.
  - intros handler params user. unfold serveOrders, authenticateToken.
    destruct (tokenOf authorization) as [token|]; [|done].
    destruct (jwtValid token) eqn:Hvalid; [|done].
    destruct (getTokenFromRedis now token store) as [u|] eqn:Hredis; [|done].
    destruct (dispatch m path) as [[r ps]|] eqn:Hdispatch; [|done].
    intros Hrun.
    assert (handler = rt_handler r ∧ params = ps ∧ user = u ∧
            (rt_admin r = true → u_role u = "admin")) as (-> & -> & -> & Hadmin).
    { destruct (rt_admin r); [|by simplify_eq].
      unfold isAdmin in Hrun. destruct (decide (u_role u = "admin"));
        by simplify_eq. }
    split; [by exists token|]. split; [by exists r|].
    split; [|by eapply dispatch_handler].
    intros Hupdate. apply Hadmin.
    apply dispatchIn_registered in Hdispatch as (Hin & _).
    unfold orderRoutes in Hin.
    repeat (apply elem_of_cons in Hin as [->|Hin]); simpl in *;
      try done. by apply elem_of_nil in Hin.
  - intros response Hauth. unfold serveOrders. rewrite Hauth. split; [done|].
    unfold authenticateToken in Hauth.
    destruct (tokenOf authorization) as [token|]; [|simplify_eq; by left].
    destruct (jwtValid token); [|simplify_eq; by right].
    destruct (getTokenFromRedis now token store); simplify_eq. by left.
Qed.

Lemma serveOrders_authenticates_witness :
  let store := storeTokenInRedis 1000 "abc.def.ghi" (mkUser 9 "user") ∅ in
  serveOrders (λ _, true) 5000 store POST ["100"; "cancel"]
    (Some "Bearer abc.def.ghi") =
    Run HCancelOrder [("id", "100")] (mkUser 9 "user") ∧
  (∃ token, tokenOf (Some "Bearer abc.def.ghi") = Some token ∧
            getTokenFromRedis 5000 token store = Some (mkUser 9 "user")) ∧
  serveOrders (λ _, true) 5000 store PUT ["100"; "status"]
    (Some "Bearer abc.def.ghi") =
    Respond (mkResponse 403 (JsonMessage "Admin access required")).
Proof.
  intros store. split; [reflexivity|]. split; [|reflexivity].
  destruct (serveOrders_authenticates (λ _, true) 5000 store POST
              ["100"; "cancel"] (Some "Bearer abc.def.ghi")) as [Hrun _].
  destruct (Hrun HCancelOrder [("id", "100")] (mkUser 9 "user") eq_refl)
    as ((token & Htoken & _ & Hstored) & _).
  by exists token.
Defined.

(** ** The controllers *)













(** * The cart service *)

Section CartLemmas.

Lemma foldl_sum {A} (f : A → Z) (l : list A) (a : Z) :
  foldl (λ sum x, sum + f x) a l = a + sumZ (map f l).
Proof.
  revert a. induction l as [|x l IH]; intros a; simpl; [lia|].
  rewrite IH. lia.
Qed.

Lemma calculateTotals_totals cart :
  Cart.totalItems (CartService.calculateTotals cart) =
    sumZ (map Cart.quantity (Cart.items cart)) ∧
  Cart.totalAmount (CartService.calculateTotals cart) =
    sumZ (map (λ it, Cart.priceOf it * Cart.quantity it) (Cart.items cart)).
Proof. unfold CartService.calculateTotals. simpl. by rewrite !foldl_sum. Qed.

Lemma populate_detailed prods cart :
  Forall (λ it, is_Some (Cart.product it)) (Cart.items cart) →
  CartService.populateProductDetails prods cart = cart.
Proof.
  intros Hall. unfold CartService.populateProductDetails, Cart.setItems.
  destruct cart as [u its ta ti]. simpl in *. f_equal.
  induction Hall as [|it its [snap Hsnap] _ IH]; [done|].
  simpl. by rewrite Hsnap, IH.
Qed.

Lemma findIndex_Some pid its i :
  CartService.findIndex pid its = Some i →
  ∃ it, its !! i = Some it ∧ Cart.productId it = pid.
Proof.
  revert i. induction its as [|it0 rest IH]; intros i; [done|]. simpl.
  destruct (decide (Cart.productId it0 = pid)) as [Heq|Hne].
  - intros [= <-]. by exists it0.
  - destruct (CartService.findIndex pid rest) as [j|]; [|done].
    intros [= <-]. simpl. by apply IH.
Qed.

Lemma findIndex_None pid its :
  CartService.findIndex pid its = None ↔ pid ∉ map Cart.productId its.
Proof.
  induction its as [|it0 rest IH]; simpl.
  - split; [intros _; apply not_elem_of_nil|done].
  - destruct (decide (Cart.productId it0 = pid)) as [Heq|Hne].
    + split; [done|]. intros Hnot. destruct Hnot. rewrite Heq.
      apply list_elem_of_here.
    + destruct (CartService.findIndex pid rest) as [j|] eqn:Hrest.
      * split; [done|]. intros Hnot. exfalso.
        assert (pid ∉ map Cart.productId rest) as Hrest'.
        { intros Hin. apply Hnot. by apply list_elem_of_further. }
        by apply IH in Hrest'.
      * split; [|done]. intros _ [Hhere|Hin]%elem_of_cons; [done|].
        by apply IH in Hin.
Qed.

Lemma findIndex_new pid its it :
  pid ∉ map Cart.productId its → Cart.productId it = pid →
  CartService.findIndex pid (its ++ [it]) = Some (length its).
Proof.
  intros Hnot Hit. induction its as [|it0 rest IH]; simpl.
  - by rewrite decide_True.
  - simpl in Hnot. apply not_elem_of_cons in Hnot as [Hne Hnot].
    rewrite decide_False by done. by rewrite IH.
Qed.

Lemma alter_keeps {B} (g : Cart.item → B) (f : Cart.item → Cart.item) i
    (its : list Cart.item) :
  (∀ it, g (f it) = g it) → map g (alter f i its) = map g its.
Proof.
  intros Hf. revert i.
  induction its as [|it rest IH]; intros [|i]; simpl; try done.
  - by rewrite Hf.
  - f_equal. apply IH.
Qed.

Lemma sound_of_items u (its : list Cart.item) cart :
  Cart.userId cart = u →
  Forall (λ it, is_Some (Cart.product it)) its →
  NoDup (map Cart.productId its) →
  cartSound u (CartService.calculateTotals (Cart.setItems its cart)).
Proof.
  intros Hu Hdetails Hnodup.
  destruct (calculateTotals_totals (Cart.setItems its cart)) as [Hti Hta].
  by split_and!.
Qed.

Lemma details_of_map (its its' : list Cart.item) :
  map Cart.product its' = map Cart.product its →
  Forall (λ it, is_Some (Cart.product it)) its →
  Forall (λ it, is_Some (Cart.product it)) its'.
Proof.
  intros Hmap Hall.
  change (Forall (is_Some ∘ Cart.product) its').
  apply Forall_fmap. change (Forall is_Some (map Cart.product its')).
  rewrite Hmap. apply Forall_fmap. exact Hall.
Qed.

Lemma emptyCart_sound u : cartSound u (CartService.emptyCart u).
Proof. split_and!; try done; constructor. Qed.

(** What [getCart] does on sound carts: the user's cart, or a new empty one,
    stored and returned as it is. *)
Lemma getCart_sound prods u carts :
  cartsSound carts →
  let cart := default (CartService.emptyCart u) (carts !! u) in
  CartService.getCart prods u carts = (<[u := cart]> carts, cart) ∧
  cartSound u cart ∧
  cartsSound (<[u := cart]> carts).
Proof.
  intros Hsound cart.
  assert (cartSound u cart) as Hcart.
  { subst cart. destruct (carts !! u) as [c|] eqn:Hc; simpl.
    - by apply Hsound.
    - apply emptyCart_sound. }
  split_and!; [|done|].
  - unfold CartService.getCart. fold cart.
    rewrite populate_detailed; [done|]. by destruct Hcart as (_ & ? & _).
  - intros u' c'. rewrite lookup_insert. case_decide; [|by apply Hsound].
    intros [= <-]. by subst.
Qed.

Lemma cartsSound_insert u cart carts :
  cartsSound carts → cartSound u cart → cartsSound (<[u := cart]> carts).
Proof.
  intros Hsound Hcart u' c'. rewrite lookup_insert.
  case_decide; [|by apply Hsound]. intros [= <-]. by subst.
Qed.

End CartLemmas.

Section CartRuns.

Variables (prods : gmap nat Product.t) (u : nat) (carts : gmap nat Cart.t).
Hypothesis Hsound : cartsSound carts.

Let cart := default (CartService.emptyCart u) (carts !! u).

(** The cart [addToCart] stores: the quantity added to the item of that
    product, or a new item at the end. *)
Lemma addToCart_run pid q p :
  prods !! pid = Some p →
  Product.isAvailable p = true →
  q ≤ Product.stockQuantity p →
  let items' :=
    match CartService.findIndex pid (Cart.items cart) with
    | Some i => alter (λ it, Cart.setQuantity (Cart.quantity it + q) it) i
                      (Cart.items cart)
    | None => Cart.items cart ++
              [Cart.mkItem pid q (Some (CartService.snapshotOf pid p))]
    end in
  let cart' := CartService.calculateTotals (Cart.setItems items' cart) in
  CartService.addToCart prods u pid q carts = (<[u := cart']> carts, inr cart') ∧
  cartSound u cart'.
Proof.
  intros Hp Ha Hq items' cart'.
  destruct (getCart_sound prods u carts Hsound) as (Hget & Hcart & _).
  fold cart in Hget, Hcart. split.
  - unfold CartService.addToCart. rewrite Hp, Ha. cbn [negb].
    destruct (Z.ltb_spec (Product.stockQuantity p) q); [lia|].
    rewrite Hget. fold items'. fold cart'. by rewrite insert_insert_eq.
  - destruct Hcart as (Hu & Hdetails & Hnodup & _).
    apply sound_of_items; [done| |]; subst items'.
    + destruct (CartService.findIndex pid (Cart.items cart)) as [i|].
      * eapply details_of_map; [|done]. by apply alter_keeps.
      * apply Forall_app. split; [done|]. by repeat constructor.
    + destruct (CartService.findIndex pid (Cart.items cart)) as [i|] eqn:Hfind.
      * by rewrite alter_keeps.
      * rewrite map_app. apply NoDup_app. split; [done|]. split.
        -- intros x Hx [->|Hin]%elem_of_cons;
             [by apply findIndex_None in Hfind|by apply elem_of_nil in Hin].
        -- apply NoDup_singleton.
Qed.

Lemma addToCart_refused pid q :
  (prods !! pid = None →
   CartService.addToCart prods u pid q carts =
     (carts, inl CartProductNotFound)) ∧
  (∀ p, prods !! pid = Some p →
     (Product.isAvailable p = false →
      CartService.addToCart prods u pid q carts =
        (carts, inl CartProductUnavailable)) ∧
     (Product.isAvailable p = true → Product.stockQuantity p < q →
      CartService.addToCart prods u pid q carts =
        (carts, inl (CartInsufficientStock (Product.stockQuantity p))))).
Proof.
  unfold CartService.addToCart. split.
  - by intros ->.
  - intros p ->. split.
    + by intros ->.
    + intros -> Hq. simpl.
      by destruct (Z.ltb_spec (Product.stockQuantity p) q); [|lia].
Qed.

(** The cart [removeFromCart] stores. *)
Lemma removeFromCart_run pid :
  match CartService.findIndex pid (Cart.items cart) with
  | None =>
      CartService.removeFromCart prods u pid carts =
        (<[u := cart]> carts, inl CartItemNotFound)
  | Some i =>
      let cart' :=
        CartService.calculateTotals
          (Cart.setItems (delete i (Cart.items cart)) cart) in
      CartService.removeFromCart prods u pid carts =
        (<[u := cart']> carts, inr cart') ∧
      cartSound u cart'
  end.
Proof.
  destruct (getCart_sound prods u carts Hsound) as (Hget & Hcart & _).
  fold cart in Hget, Hcart. unfold CartService.removeFromCart. rewrite Hget.
  destruct (CartService.findIndex pid (Cart.items cart)) as [i|]; [|done].
  simpl. rewrite insert_insert_eq. split; [done|].
  destruct Hcart as (Hu & Hdetails & Hnodup & _).
  apply sound_of_items; [done|by apply Forall_delete|].
  eapply sublist_NoDup; [exact Hnodup|]. apply fmap_sublist, sublist_delete.
Qed.

(** The cart [updateCartItem] stores. *)
Lemma updateCartItem_run pid q :
  match CartService.findIndex pid (Cart.items cart) with
  | None =>
      CartService.updateCartItem prods u pid q carts =
        (<[u := cart]> carts, inl CartItemNotFound)
  | Some i =>
      (q ≤ 0 →
       CartService.updateCartItem prods u pid q carts =
         CartService.removeFromCart prods u pid carts) ∧
      (0 < q →
       (∀ p, prods !! pid = Some p → Product.stockQuantity p < q →
          CartService.updateCartItem prods u pid q carts =
            (<[u := cart]> carts,
             inl (CartInsufficientStock (Product.stockQuantity p)))) ∧
       ((∀ p, prods !! pid = Some p → q ≤ Product.stockQuantity p) →
        let cart' :=
          CartService.calculateTotals
            (Cart.setItems (alter (Cart.setQuantity q) i (Cart.items cart))
                           cart) in
        CartService.updateCartItem prods u pid q carts =
          (<[u := cart']> carts, inr cart') ∧
        cartSound u cart'))
  end.
Proof.
  destruct (getCart_sound prods u carts Hsound) as (Hget & Hcart & _).
  fold cart in Hget, Hcart.
  unfold CartService.updateCartItem, CartService.removeFromCart. rewrite Hget.
  destruct (CartService.findIndex pid (Cart.items cart)) as [i|]; [|done].
  split.
  - intros Hq. by destruct (Z.leb_spec q 0); [|lia].
  - intros Hq. destruct (Z.leb_spec q 0); [lia|]. split.
    + intros p Hp Hlt. rewrite Hp.
      by destruct (Z.ltb_spec (Product.stockQuantity p) q); [|lia].
    + intros Hstock.
      set (cart' := CartService.calculateTotals
                      (Cart.setItems
                         (alter (Cart.setQuantity q) i (Cart.items cart))
                         cart)).
      assert (cartSound u cart') as Hcart'.
      { destruct Hcart as (Hu & Hdetails & Hnodup & _).
        apply sound_of_items; [done| |].
        - eapply details_of_map; [|done]. by apply alter_keeps.
        - by rewrite alter_keeps. }
      split; [|done]. rewrite insert_insert_eq.
      destruct (prods !! pid) as [p|] eqn:Hp; [|done].
      specialize (Hstock p eq_refl).
      by destruct (Z.ltb_spec (Product.stockQuantity p) q); [lia|].
Qed.

End CartRuns.

(** ** Invariants of the carts *)

Lemma execCart_sound prods op carts :
  cartsSound carts → cartsSound (execCart prods op carts).
Proof.
  intros Hsound. destruct op as [u|u pid q|u pid q|u pid|u]; unfold execCart.
  - destruct (getCart_sound prods u carts Hsound) as (-> & _ & Hcarts). done.
  - destruct (prods !! pid) as [p|] eqn:Hp.
    2:{ by rewrite (proj1 (addToCart_refused prods u carts pid q) Hp). }
    destruct (proj2 (addToCart_refused prods u carts pid q) p Hp)
      as [Hunavailable Hinsufficient].
    destruct (Product.isAvailable p) eqn:Ha; [|by rewrite Hunavailable].
    destruct (Z.lt_ge_cases (Product.stockQuantity p) q) as [Hq|Hq];
      [by rewrite Hinsufficient|].
    destruct (addToCart_run prods u carts Hsound pid q p Hp Ha Hq)
      as [-> Hcart].
    by apply cartsSound_insert.
  - pose proof (updateCartItem_run prods u carts Hsound pid q) as Hrun.
    pose proof (removeFromCart_run prods u carts Hsound pid) as Hremove.
    destruct (getCart_sound prods u carts Hsound) as (_ & _ & Hcarts).
    destruct (CartService.findIndex pid _) as [i|]; [|by rewrite Hrun].
    destruct Hrun as [Hnonpositive Hpositive].
    destruct (Z.le_gt_cases q 0) as [Hq|Hq].
    + rewrite (Hnonpositive Hq). destruct Hremove as [-> Hcart].
      by apply cartsSound_insert.
    + destruct (Hpositive ltac:(lia)) as [Hrefused Hstored].
      destruct (prods !! pid) as [p|] eqn:Hp.
      * destruct (Z.lt_ge_cases (Product.stockQuantity p) q) as [Hlt|Hge].
        -- by rewrite (Hrefused p eq_refl Hlt).
        -- destruct Hstored as [-> Hcart]; [by intros p' [= <-]|].
           by apply cartsSound_insert.
      * destruct Hstored as [-> Hcart]; [by intros p' [=]|].
        by apply cartsSound_insert.
  - pose proof (removeFromCart_run prods u carts Hsound pid) as Hremove.
    destruct (getCart_sound prods u carts Hsound) as (_ & _ & Hcarts).
    destruct (CartService.findIndex pid _) as [i|]; [|by rewrite Hremove].
    destruct Hremove as [-> Hcart]. by apply cartsSound_insert.
  - simpl. apply cartsSound_insert; [done|apply emptyCart_sound].
Qed.



(** X20.  A call on the cart service touches the cart of the user it is made
    for and no other: every other user's cart is exactly as before, whether
    the call returned or threw. *)
Theorem carts_are_separate prods op carts u :
  u ≠ cartUser op → execCart prods op carts !! u = carts !! u.
Proof.
  intros Hne.
  destruct op as [v|v pid q|v pid q|v pid|v]; simpl in *.
  - by rewrite lookup_insert_ne.
  - unfold CartService.addToCart.
    destruct (prods !! pid) as [p|]; [|done].
    destruct (negb (Product.isAvailable p)); [done|].
    destruct (Product.stockQuantity p <? q); [done|]. simpl.
    by rewrite !lookup_insert_ne.
  - unfold CartService.updateCartItem. simpl.
    destruct (CartService.findIndex pid _) as [i|]; simpl;
      [|by rewrite lookup_insert_ne].
    destruct (q <=? 0); simpl; [by rewrite !lookup_insert_ne|].
    destruct (prods !! pid) as [p|]; simpl; [|by rewrite !lookup_insert_ne].
    destruct (Product.stockQuantity p <? q); simpl;
      by rewrite !lookup_insert_ne.
  - unfold CartService.removeFromCart. simpl.
    destruct (CartService.findIndex pid _) as [i|]; simpl;
      by rewrite !lookup_insert_ne.
  - by rewrite lookup_insert_ne.
Qed.

Lemma carts_are_separate_witness :
  let carts := execCarts [(sampleProducts, OpAddToCart 9 1 3)] ∅ in
  execCart sampleProducts (OpClearCart 12) carts !! 9%nat = carts !! 9%nat ∧
  is_Some (carts !! 9%nat).
Proof.
  intros carts. split; [|by eexists].
  apply carts_are_separate. simpl. lia.
Defined.

(** ** Quantities and prices in a cart *)

Lemma quantity_after_alter pid pid' q i (its : list Cart.item) it :
  its !! i = Some it → Cart.productId it = pid →
  sumZ (map Cart.quantity
          (filter (λ x, Cart.productId x = pid')
             (alter (λ x, Cart.setQuantity (Cart.quantity x + q) x) i its))) =
  sumZ (map Cart.quantity (filter (λ x, Cart.productId x = pid') its)) +
  (if decide (pid = pid') then q else 0).
Proof.
  unfold sumZ. revert i. induction its as [|it0 rest IH]; intros [|i] Hi Hpid;
    simpl in *; simplify_eq.
  - rewrite !filter_cons. simpl.
    destruct (decide (Cart.productId it = pid')); simpl; lia.
  - specialize (IH i Hi eq_refl). unfold alter in IH. rewrite !filter_cons.
    destruct (decide (Cart.productId it0 = pid')); simpl; rewrite IH; lia.
Qed.

(** X21.  [addToCart] checks the added quantity alone against the stock:
    whenever the product exists, is available and has at least the added
    quantity in stock, the call returns the stored cart with that product's
    quantity raised by the added quantity, whatever the cart already held,
    and every other product's quantity unchanged.  [updateCartItem], for an
    item in the cart, refuses any positive quantity above the stock. *)
Theorem addToCart_adds prods u pid q p carts :
  cartsSound carts →
  prods !! pid = Some p →
  Product.isAvailable p = true →
  q ≤ Product.stockQuantity p →
  let before := default (CartService.emptyCart u) (carts !! u) in
  (∃ carts' cart',
     CartService.addToCart prods u pid q carts = (carts', inr cart') ∧
     carts' !! u = Some cart' ∧
     quantityIn pid cart' = quantityIn pid before + q ∧
     ∀ pid', pid' ≠ pid → quantityIn pid' cart' = quantityIn pid' before) ∧
  (∀ q', 0 < q' → Product.stockQuantity p < q' →
     pid ∈ map Cart.productId (Cart.items before) →
     CartService.updateCartItem prods u pid q' carts =
       (<[u := before]> carts,
        inl (CartInsufficientStock (Product.stockQuantity p)))).
Proof.
  intros Hsound Hp Ha Hq before. split.
  - destruct (addToCart_run prods u carts Hsound pid q p Hp Ha Hq)
      as [Hrun _].
    eexists _, _. split; [exact Hrun|]. split; [by rewrite lookup_insert_eq|].
    unfold quantityIn. simpl. fold before.
    destruct (CartService.findIndex pid (Cart.items before)) as [i|] eqn:Hfind.
    + apply findIndex_Some in Hfind as (it & Hit & Hpid). split.
      * rewrite (quantity_after_alter pid pid q i _ it) by done.
        by rewrite decide_True.
      * intros pid' Hne.
        rewrite (quantity_after_alter pid pid' q i _ it) by done.
        rewrite decide_False by done. lia.
    + split.
      * rewrite filter_app, map_app. rewrite filter_cons, decide_True by done.
        simpl. clear. induction (map Cart.quantity _) as [|x l IH]; simpl; lia.
      * intros pid' Hne. rewrite filter_app, filter_cons.
        rewrite decide_False by (simpl; congruence).
        by rewrite filter_nil, app_nil_r.
  - intros q' Hpos Hlt Hin.
    pose proof (updateCartItem_run prods u carts Hsound pid q') as Hrun.
    fold before in Hrun.
    destruct (CartService.findIndex pid (Cart.items before)) as [i|] eqn:Hfind.
    + destruct Hrun as [_ Hpositive].
      destruct (Hpositive Hpos) as [Hrefused _]. by apply Hrefused.
    + by apply findIndex_None in Hfind.
Qed.

Lemma addToCart_adds_witness :
  ∃ carts1 cart1 carts2 cart2,
    CartService.addToCart sampleProducts 9 1 3 ∅ = (carts1, inr cart1) ∧
    CartService.addToCart sampleProducts 9 1 3 carts1 = (carts2, inr cart2) ∧
    quantityIn 1 cart2 = 6 ∧
    stockOf 1 sampleDB = Some 5.
Proof.
  eexists _, _.
  destruct (addToCart_adds sampleProducts 9 1 3
              (Product.mk "Keyboard" 1000 true 5)
              (CartService.addToCart sampleProducts 9 1 3 ∅).1)
    as [(carts2 & cart2 & Hrun & _ & Hquantity & _) _].
  - apply (execCart_sound sampleProducts (OpAddToCart 9 1 3) ∅).
    intros u' c'. by rewrite lookup_empty.
  - reflexivity.
  - reflexivity.
  - simpl. lia.
  - exists carts2, cart2. split; [reflexivity|]. split; [exact Hrun|].
    split; [|reflexivity]. rewrite Hquantity. reflexivity.
Defined.

(** X22.  [updateCartItem] with a quantity of zero or less is
    [removeFromCart]: same carts afterwards, same cart returned or same
    error thrown. *)
Theorem updateCartItem_nonpositive_removes prods u pid q carts :
  q ≤ 0 →
  CartService.updateCartItem prods u pid q carts =
  CartService.removeFromCart prods u pid carts.
Proof.
  intros Hq. unfold CartService.updateCartItem, CartService.removeFromCart.
  destruct (CartService.getCart prods u carts) as [carts1 cart].
  destruct (CartService.findIndex pid (Cart.items cart)) as [i|]; [|done].
  by destruct (Z.leb_spec q 0); [|lia].
Qed.

Lemma updateCartItem_nonpositive_removes_witness :
  let carts := execCarts [(sampleProducts, OpAddToCart 9 1 3);
                          (sampleProducts, OpAddToCart 9 2 1)] ∅ in
  CartService.updateCartItem sampleProducts 9 1 (-4) carts =
    CartService.removeFromCart sampleProducts 9 1 carts ∧
  (Cart.totalItems <$> (CartService.removeFromCart sampleProducts 9 1 carts).1
                         !! 9%nat) = Some 1.
Proof.
  intros carts. split; [|reflexivity].
  apply updateCartItem_nonpositive_removes. lia.
Defined.





Lemma delete_last {A} (l : list A) x : delete (length l) (l ++ [x]) = l.
Proof. induction l as [|y l IH]; simpl; [done|]. by rewrite IH. Qed.

(** X24.  Adding a product the cart does not hold and removing it again
    gives back the cart as it was: same items, same totals, stored under the
    same user. *)
Theorem addToCart_removeFromCart_round_trip prods prods' u pid q p carts :
  cartsSound carts →
  let before := default (CartService.emptyCart u) (carts !! u) in
  pid ∉ map Cart.productId (Cart.items before) →
  prods !! pid = Some p →
  Product.isAvailable p = true →
  q ≤ Product.stockQuantity p →
  ∃ carts1 cart1,
    CartService.addToCart prods u pid q carts = (carts1, inr cart1) ∧
    CartService.removeFromCart prods' u pid carts1 =
      (<[u := before]> carts, inr before).
Proof.
  intros Hsound before Hnew Hp Ha Hq.
  destruct (addToCart_run prods u carts Hsound pid q p Hp Ha Hq)
    as [Hrun Hsound1].
  fold before in Hrun, Hsound1.
  apply findIndex_None in Hnew as Hfind. rewrite Hfind in Hrun, Hsound1.
  eexists _, _. split; [exact Hrun|].
  set (cart1 := CartService.calculateTotals _) in *.
  pose proof (removeFromCart_run prods' u (<[u := cart1]> carts)
                (cartsSound_insert _ _ _ Hsound Hsound1) pid) as Hremove.
  rewrite lookup_insert_eq in Hremove. simpl in Hremove.
  rewrite findIndex_new in Hremove by done.
  destruct Hremove as [Hremove _]. rewrite Hremove.
  rewrite delete_last, insert_insert_eq.
  assert (CartService.calculateTotals
            (Cart.setItems (Cart.items before) cart1) = before) as ->; [|done].
  assert (cartSound u before) as (Hu & _ & _ & Hti & Hta).
  { subst before. destruct (carts !! u) as [c|] eqn:Hc; simpl.
    - by apply Hsound.
    - apply emptyCart_sound. }
  unfold CartService.calculateTotals. simpl. rewrite !foldl_sum.
  destruct before as [bu bits bta bti]. simpl in *. f_equal; lia.
Qed.

Lemma addToCart_removeFromCart_round_trip_witness :
  let carts := execCarts [(sampleProducts, OpAddToCart 9 1 3)] ∅ in
  ∃ carts1 cart1,
    CartService.addToCart sampleProducts 9 2 4 carts = (carts1, inr cart1) ∧
    CartService.removeFromCart sampleProducts 9 2 carts1 =
      (carts, inr (Cart.mk 9 [Cart.mkItem 1 3
                                (Some (Cart.mkSnapshot 1 "Keyboard" 1000))]
                           3000 3)).
Proof.
  intros carts.
  destruct (addToCart_removeFromCart_round_trip sampleProducts sampleProducts
              9 2 4 (Product.mk "Mouse" 500 true 7) carts)
    as (carts1 & cart1 & Hadd & Hremove).
  - apply (execCart_sound sampleProducts (OpAddToCart 9 1 3) ∅).
    intros u' c'. by rewrite lookup_empty.
  - change (2%nat ∉ [1%nat]). rewrite list_elem_of_singleton. lia.
  - reflexivity.
  - reflexivity.
  - simpl. lia.
  - exists carts1, cart1. split; [exact Hadd|].
    rewrite Hremove. reflexivity.
Defined.

(** * The error middleware and the category service *)

(** X25.  Whatever error it is given, [handleError] returns a status code
    other than 0 and a message that is not empty; it makes the security log
    entry exactly for instances of [SecurityError] (no error type it assigns
    contains "SECURITY"); and it returns an application error's own status
    code and message, under the type [INTERNAL_ERROR], for every error class
    of the module but [ValidationError], which gets 400,
    [VALIDATION_ERROR] and its [errors] as details. *)
Theorem handleError_responses error :
  h_statusCode (handleError error) ≠ 0%nat ∧
  h_message (handleError error) ≠ "" ∧
  h_securityLogged (handleError error) = e_isSecurityError error ∧
  (∀ message, message ≠ "" →
     Forall (λ '(built, code),
               handleError built =
                 mkHandled code message "INTERNAL_ERROR" None
                           (e_isSecurityError built))
            [(authenticationError message, 401%nat);
             (authorizationError message, 403%nat);
             (notFoundError message, 404%nat);
             (conflictError message, 409%nat);
             (rateLimitError message, 429%nat);
             (securityError message, 400%nat)] ∧
     ∀ errors, handleError (validationError message errors) =
                 mkHandled 400 message "VALIDATION_ERROR" errors false).
Proof.
  split_and!.
  - unfold handleError. repeat case_decide; simpl; try done;
      by destruct (e_statusCode error) as [[|n]|].
  - unfold handleError. repeat case_decide; simpl; done.
  - unfold handleError. repeat case_decide; simpl; apply orb_false_r.
  - intros message Hmessage. split.
    + repeat constructor; unfold handleError; simpl;
        by rewrite decide_False.
    + intros errors. unfold handleError. simpl. by rewrite decide_False.
Qed.

Lemma handleError_responses_witness :
  handleError (notFoundError "Route GET /x not found") =
    mkHandled 404 "Route GET /x not found" "INTERNAL_ERROR" None false ∧
  h_statusCode (handleError (mkAppError "Error" "" (Some 0%nat) None None
                                         None false)) = 500%nat.
Proof.
  destruct (handleError_responses (notFoundError "Route GET /x not found"))
    as (_ & _ & _ & Hclasses).
  destruct (Hclasses "Route GET /x not found") as [Hall _]; [done|].
  split; [|reflexivity].
  apply Forall_cons in Hall as [_ Hall]. apply Forall_cons in Hall as [_ Hall].
  by apply Forall_cons in Hall as [Hnot _].
Defined.

(** X26.  Removing a category is a soft delete: [DELETE] answers 204 whether
    or not a category has the id; afterwards the category is no longer
    listed, every other category is listed as before, and [findById] still
    returns it, inactive and otherwise unchanged, so [GET] by id still
    answers 200; removing it again changes nothing. *)
Theorem category_remove_is_soft {F} id (table : gmap nat (Category F)) :
  let table' := (deleteCategoryController id table).1 in
  (deleteCategoryController id table).2 = 204%nat ∧
  CategoryService.findById id table' =
    (λ c, mkCategory false (c_fields c)) <$> CategoryService.findById id table ∧
  getCategoryStatus id table' = getCategoryStatus id table ∧
  (∀ k, k ≠ id →
        CategoryService.findById k table' = CategoryService.findById k table) ∧
  (∀ k c, (k, c) ∈ CategoryService.listAll table' ↔
          (k, c) ∈ CategoryService.listAll table ∧ k ≠ id) ∧
  CategoryService.remove id table' = table'.
Proof.
  unfold deleteCategoryController, getCategoryStatus, CategoryService.findById,
    CategoryService.remove, CategoryService.listAll. simpl.
  split_and!; try done.
  - by rewrite lookup_alter_eq.
  - rewrite lookup_alter_eq. by destruct (table !! id).
  - intros k Hne. by rewrite lookup_alter_ne.
  - intros k c. rewrite !list_elem_of_filter, !elem_of_map_to_list. simpl.
    rewrite lookup_alter. case_decide as Hk.
    + subst k. split; [|tauto]. intros [Hactive Hrow].
      destruct (table !! id) as [c0|]; simpl in Hrow; by simplify_eq.
    + split; [|tauto]. intros Hrow. split; [done|congruence].
  - apply map_eq. intros k. destruct (decide (k = id)) as [->|Hne].
    + rewrite !lookup_alter_eq. by destruct (table !! id).
    + by rewrite !lookup_alter_ne.
Qed.

Lemma category_remove_is_soft_witness :
  let table : gmap nat (Category string) :=
    <[1%nat := mkCategory true "Keyboards"]>
      (<[2%nat := mkCategory true "Mice"]> ∅) in
  CategoryService.findById 1 (CategoryService.remove 1 table) =
    Some (mkCategory false "Keyboards") ∧
  CategoryService.listAll (CategoryService.remove 1 table) =
    [(2%nat, mkCategory true "Mice")].
Proof.
  intros table.
  destruct (category_remove_is_soft 1 table) as (_ & Hfind & _).
  split; [exact Hfind|reflexivity].
Defined.
